(** * Shallow embedding of the dashboard data pipeline of [script.js]

    The client-side pipeline of the dashboard (normaliser, date-range
    filter, [computeCards], [sortData], [renderChart]/[renderTable] and the
    orchestration in [applyFiltersAndRender] and the header click handler)
    modelled over a small model of the JavaScript values it touches.

    Modelling conventions:
    - a JavaScript number is [num]: NaN, the two infinities or an exact
      rational ([Q]); double rounding, overflow to Infinity and [-0] are not
      modelled;
    - strings are Rocq byte strings (ASCII; [toLowerCase] on ASCII letters);
    - a JSON value is [jsval]; a plain object is its list of fields, the
      last binding of a key wins (as with [JSON.parse]);
    - a [Date] object is its time value, [option Z] (milliseconds, [None]
      for an Invalid Date); date strings are parsed in the ISO form of the
      ECMAScript date-time string format, a date-only form as UTC and a
      date-time form as local time at the offset [tza];
    - [Array.prototype.sort] is a stable insertion sort driven by the
      comparator's sign (NaN read as +0, as in SortCompare). *)

From Stdlib Require Import ZArith QArith Qround Qabs String Ascii List Bool Lia.
From Stdlib Require Import Sorting.Permutation Sorting.Sorted.
Import ListNotations.

Open Scope string_scope.
Set Warnings "-register-all".

(* ------------------------------------------------------------------ *)
(** ** JavaScript numbers *)

Definition Qltb (x y : Q) : bool := negb (Qle_bool y x).

Inductive num : Type :=
| NaN
| PosInf
| NegInf
| Fin (q : Q).

Definition num_isnan (n : num) : bool :=
  match n with NaN => true | _ => false end.

Definition num_neg (n : num) : num :=
  match n with
  | NaN => NaN | PosInf => NegInf | NegInf => PosInf | Fin q => Fin (- q)
  end.

Definition num_add (a b : num) : num :=
  match a, b with
  | NaN, _ | _, NaN => NaN
  | PosInf, NegInf | NegInf, PosInf => NaN
  | PosInf, _ | _, PosInf => PosInf
  | NegInf, _ | _, NegInf => NegInf
  | Fin x, Fin y => Fin (x + y)
  end.

Definition num_sub (a b : num) : num := num_add a (num_neg b).

(** sign of a non-NaN number: [Some true] positive, [Some false] negative,
    [None] zero *)
Definition num_sign (a : num) : option bool :=
  match a with
  | PosInf => Some true
  | NegInf => Some false
  | Fin q => if Qeq_bool q 0 then None else Some (Qltb 0 q)
  | NaN => None
  end.

Definition inf_of_sign (pos : bool) : num := if pos then PosInf else NegInf.

Definition num_mul (a b : num) : num :=
  match a, b with
  | NaN, _ | _, NaN => NaN
  | Fin x, Fin y => Fin (x * y)
  | _, _ =>
      match num_sign a, num_sign b with
      | Some sa, Some sb => inf_of_sign (Bool.eqb sa sb)
      | _, _ => NaN (* infinity times zero *)
      end
  end.

Definition num_div (a b : num) : num :=
  match a, b with
  | NaN, _ | _, NaN => NaN
  | Fin x, Fin y =>
      if Qeq_bool y 0 then
        match num_sign a with
        | None => NaN
        | Some sa => inf_of_sign sa
        end
      else Fin (x / y)
  | Fin _, _ => Fin 0
  | _, Fin y =>
      match num_sign a, num_sign b with
      | Some sa, Some sb => inf_of_sign (Bool.eqb sa sb)
      | Some sa, None => inf_of_sign sa
      | None, _ => NaN
      end
  | _, _ => NaN
  end.

(** the relational operator [a < b] on numbers: false when either is NaN *)
Definition num_lt (a b : num) : bool :=
  match a, b with
  | NaN, _ | _, NaN => false
  | NegInf, NegInf => false
  | NegInf, _ => true
  | _, NegInf => false
  | PosInf, _ => false
  | Fin _, PosInf => true
  | Fin x, Fin y => Qltb x y
  end.

(** SameValueZero on numbers *)
Definition num_eqb (a b : num) : bool :=
  match a, b with
  | NaN, NaN | PosInf, PosInf | NegInf, NegInf => true
  | Fin x, Fin y => Qeq_bool x y
  | _, _ => false
  end.

(** [Math.round]: nearest integer, ties toward +Infinity *)
Definition math_round (a : num) : num :=
  match a with
  | Fin q => Fin (inject_Z (Qfloor (q + (1 # 2))))
  | _ => a
  end.

(** [Math.pow(10, d)] for a non-negative integer [d] *)
Definition pow10 (d : nat) : num := Fin (inject_Z (10 ^ Z.of_nat d)).

(** [function round(n, d=2){ return Math.round(n * Math.pow(10,d))/Math.pow(10,d); }] *)
Definition round (n : num) (d : nat) : num :=
  num_div (math_round (num_mul n (pow10 d))) (pow10 d).

(* ------------------------------------------------------------------ *)
(** ** String to number ([StringToNumber]) *)

Definition is_ws (c : ascii) : bool :=
  let n := nat_of_ascii c in (Nat.eqb n 32 || (9 <=? n) && (n <=? 13))%nat.

Fixpoint drop_ws (l : list ascii) : list ascii :=
  match l with
  | c :: r => if is_ws c then drop_ws r else l
  | [] => []
  end.

Definition trim (l : list ascii) : list ascii := rev (drop_ws (rev (drop_ws l))).

Definition digit_val (base : Z) (c : ascii) : option Z := (
  let n := Z.of_nat (nat_of_ascii c) in
  let v :=
    if (48 <=? n) && (n <=? 57) then n - 48
    else if (97 <=? n) && (n <=? 122) then n - 87
    else if (65 <=? n) && (n <=? 90) then n - 55
    else base in
  if v <? base then Some v else None)%Z.

(** the longest prefix of digits: its value, its length, the rest *)
Fixpoint take_digits_acc (base acc : Z) (k : nat) (l : list ascii)
  : Z * nat * list ascii :=
  match l with
  | c :: r =>
      match digit_val base c with
      | Some v => take_digits_acc base (acc * base + v)%Z (S k) r
      | None => (acc, k, l)
      end
  | [] => (acc, k, l)
  end.

Definition take_digits (base : Z) (l : list ascii) : Z * nat * list ascii :=
  take_digits_acc base 0 0 l.

Definition Q_scale10 (m : Z) (e : Z) : Q :=
  if (0 <=? e)%Z then inject_Z (m * 10 ^ e)%Z else Qmake m (Z.to_pos (10 ^ (- e))%Z).

Definition chars (s : string) : list ascii := list_ascii_of_string s.

(** optional exponent part [e|E [+|-] digits], then end of input *)
Definition parse_exponent (l : list ascii) : option Z :=
  match l with
  | [] => Some 0%Z
  | c :: r =>
      if (c =? "e")%char || (c =? "E")%char then
        let '(neg, r') :=
          match r with
          | s :: r' => if (s =? "-")%char then (true, r')
                       else if (s =? "+")%char then (false, r') else (false, r)
          | [] => (false, r)
          end in
        match take_digits 10 r' with
        | (v, S _, []) => Some (if neg then - v else v)%Z
        | _ => None
        end
      else None
  end.

(** StrUnsignedDecimalLiteral *)
Definition parse_unsigned (l : list ascii) : option num :=
  if String.eqb (string_of_list_ascii l) "Infinity" then Some PosInf else
  match take_digits 10 l with
  | (ip, ni, r1) =>
      let '(fp, nf, dot, r2) :=
        match r1 with
        | c :: r => if (c =? ".")%char
                    then let '(f, n, r') := take_digits 10 r in (f, n, true, r')
                    else (0%Z, 0%nat, false, r1)
        | [] => (0%Z, 0%nat, false, r1)
        end in
      if Nat.eqb (ni + nf) 0 then None else
      match parse_exponent r2 with
      | Some e =>
          Some (Fin (Q_scale10 (ip * 10 ^ Z.of_nat nf + fp)%Z (e - Z.of_nat nf)%Z))
      | None => None
      end
  end.

Definition parse_nondecimal (base : Z) (l : list ascii) : option num :=
  match take_digits base l with
  | (v, S _, []) => Some (Fin (inject_Z v))
  | _ => None
  end.

(** [Number(s)] for a string [s] *)
Definition str_to_num (s : string) : num :=
  match trim (chars s) with
  | [] => Fin 0
  | l =>
      let r :=
        match l with
        | "0" :: x :: rest =>
            if (x =? "x")%char || (x =? "X")%char then parse_nondecimal 16 rest
            else if (x =? "o")%char || (x =? "O")%char then parse_nondecimal 8 rest
            else if (x =? "b")%char || (x =? "B")%char then parse_nondecimal 2 rest
            else parse_unsigned l
        | "-" :: rest => option_map num_neg (parse_unsigned rest)
        | "+" :: rest => parse_unsigned rest
        | _ => parse_unsigned l
        end%char in
      match r with Some n => n | None => NaN end
  end.

(* ------------------------------------------------------------------ *)
(** ** Number to string *)

Definition digit_char (d : Z) : ascii := ascii_of_nat (Z.to_nat (48 + d)%Z).

Fixpoint nat_digits (fuel : nat) (n : Z) (acc : list ascii) : list ascii :=
  match fuel with
  | O => acc
  | S f =>
      let acc' := digit_char (n mod 10)%Z :: acc in
      if (n <? 10)%Z then acc' else nat_digits f (n / 10)%Z acc'
  end.

Definition Z_digits (n : Z) : list ascii := nat_digits (S (Z.to_nat (Z.log2 (Z.max 1 n)))) n [].

(** fractional digits of [r / d] (with [0 <= r < d]), at most [k] of them,
    stopping at a zero remainder *)
Fixpoint frac_digits (k : nat) (r d : Z) : list ascii :=
  match k with
  | O => []
  | S k' =>
      if (r =? 0)%Z then []
      else digit_char ((r * 10) / d)%Z :: frac_digits k' ((r * 10) mod d)%Z d
  end.

(** [Number.prototype.toString] in decimal notation (the exponent notation
    JavaScript uses beyond 1e21 and below 1e-6 is not modelled; at most
    twenty fractional digits) *)
Definition num_to_string (n : num) : string :=
  match n with
  | NaN => "NaN"
  | PosInf => "Infinity"
  | NegInf => "-Infinity"
  | Fin q =>
      let q' := Qred q in
      let a := Z.abs (Qnum q') in
      let d := Zpos (Qden q') in
      let body := (Z_digits (a / d)%Z ++
        match frac_digits 20 (a mod d)%Z d with [] => [] | fs => "."%char :: fs end)%list in
      string_of_list_ascii ((if (Qnum q' <? 0)%Z then ["-"%char] else []) ++ body)%list
  end.

(* ------------------------------------------------------------------ *)
(** ** JSON values and their coercions *)

Inductive jsval : Type :=
| JUndef
| JNull
| JBool (b : bool)
| JNum (n : num)
| JStr (s : string)
| JArr (l : list jsval)
| JObj (fields : list (string * jsval)).

(** ToBoolean *)
Definition truthy (v : jsval) : bool :=
  match v with
  | JUndef | JNull => false
  | JBool b => b
  | JNum n => match n with NaN => false | Fin q => negb (Qeq_bool q 0) | _ => true end
  | JStr s => negb (String.eqb s "")
  | JArr _ | JObj _ => true
  end.

(** [a || b] *)
Definition js_or (a b : jsval) : jsval := if truthy a then a else b.

(** ToString (for arrays, [Array.prototype.join] with [","], where
    [null] and [undefined] elements print as the empty string) *)
Fixpoint js_to_string (v : jsval) : string :=
  match v with
  | JUndef => "undefined"
  | JNull => "null"
  | JBool b => if b then "true" else "false"
  | JNum n => num_to_string n
  | JStr s => s
  | JArr l =>
      (fix join (l : list jsval) : string :=
         match l with
         | [] => ""
         | x :: r =>
             let sx := match x with JUndef | JNull => "" | _ => js_to_string x end in
             match r with [] => sx | _ => sx ++ "," ++ join r end
         end) l
  | JObj _ => "[object Object]"
  end.

(** ToNumber; an array or an object goes through ToPrimitive, which for a
    plain JSON value is its ToString *)
Definition to_number (v : jsval) : num :=
  match v with
  | JUndef => NaN
  | JNull => Fin 0
  | JBool b => if b then Fin 1 else Fin 0
  | JNum n => n
  | JStr s => str_to_num s
  | JArr _ | JObj _ => str_to_num (js_to_string v)
  end.

(** last binding of a key in an object's fields, [undefined] when absent *)
Definition get (fs : list (string * jsval)) (k : string) : jsval :=
  fold_left (fun acc kv => if String.eqb (fst kv) k then snd kv else acc) fs JUndef.

(** property read [r.k]: a TypeError ([None]) on [null] and [undefined];
    the keys read by the program are own properties only, so a non-object
    gives [undefined] *)
Definition prop (r : jsval) (k : string) : option jsval :=
  match r with
  | JUndef | JNull => None
  | JObj fs => Some (get fs k)
  | _ => Some JUndef
  end.

(* ------------------------------------------------------------------ *)
(** ** Dates *)

(** a [Date] object: its time value, [None] for an Invalid Date *)
Definition date := option Z.

Definition days_from_civil (y m d : Z) : Z := (
  let y' := if m <=? 2 then y - 1 else y in
  let era := y' / 400 in
  let yoe := y' - era * 400 in
  let mp := if 2 <? m then m - 3 else m + 9 in
  let doy := (153 * mp + 2) / 5 + d - 1 in
  let doe := yoe * 365 + yoe / 4 - yoe / 100 + doy in
  era * 146097 + doe - 719468)%Z.

Fixpoint take_n_digits (k : nat) (acc : Z) (l : list ascii) : option (Z * list ascii) :=
  match k with
  | O => Some (acc, l)
  | S k' =>
      match l with
      | c :: r =>
          match digit_val 10 c with
          | Some v => take_n_digits k' (acc * 10 + v)%Z r
          | None => None
          end
      | [] => None
      end
  end.

(** optional [-NN] component, defaulting to [dflt] *)
Definition opt_component (dflt : Z) (l : list ascii) : option (Z * list ascii) :=
  match l with
  | "-"%char :: r => take_n_digits 2 0 r
  | _ => Some (dflt, l)
  end.

(** milliseconds from an optional fraction [.d+] (first three digits) *)
Definition parse_millis (l : list ascii) : option (Z * list ascii) :=
  match l with
  | "."%char :: r =>
      match take_digits 10 r with
      | (_, O, _) => None
      | (v, S n, rest) =>
          let ms := if (S n <=? 3)%nat then (v * 10 ^ (3 - Z.of_nat (S n)))%Z
                    else (v / 10 ^ (Z.of_nat (S n) - 3))%Z in
          Some (ms, rest)
      end
  | _ => Some (0%Z, l)
  end.

(** offset suffix: [None] for none (local time), [Some o] with [o] the
    offset in milliseconds; [Some None] is used for a malformed suffix *)
Definition parse_offset (l : list ascii) : option (option Z) :=
  match l with
  | [] => Some None
  | "Z"%char :: [] => Some (Some 0%Z)
  | s :: r =>
      if (s =? "+")%char || (s =? "-")%char then
        match take_n_digits 2 0 r with
        | Some (hh, ":"%char :: r') =>
            match take_n_digits 2 0 r' with
            | Some (mm, []) =>
                if (hh <=? 23)%Z && (mm <=? 59)%Z then
                  let o := ((hh * 60 + mm) * 60000)%Z in
                  Some (Some (if (s =? "+")%char then o else - o)%Z)
                else None
            | _ => None
            end
        | _ => None
        end
      else None
  end.

(** [new Date(s)] for a string [s] (date-time string format) *)
Definition parse_date_string (tza : Z) (s : string) : date :=
  match take_n_digits 4 0 (chars s) with
  | None => None
  | Some (y, r0) =>
  match opt_component 1 r0 with
  | None => None
  | Some (mo, r1) =>
  match opt_component 1 r1 with
  | None => None
  | Some (d, r2) =>
      if negb ((1 <=? mo)%Z && (mo <=? 12)%Z && (1 <=? d)%Z && (d <=? 31)%Z) then None else
      let day_ms := (days_from_civil y mo d * 86400000)%Z in
      match r2 with
      | [] => Some day_ms
      | "T"%char :: r3 =>
          match take_n_digits 2 0 r3 with
          | Some (h, ":"%char :: r4) =>
              match take_n_digits 2 0 r4 with
              | None => None
              | Some (mi, r5) =>
                  let '(sec_ms, r6) :=
                    match r5 with
                    | ":"%char :: r5' =>
                        match take_n_digits 2 0 r5' with
                        | Some (sec, r5'') =>
                            match parse_millis r5'' with
                            | Some (ms, r6) => (Some (sec, ms), r6)
                            | None => (None, r5'')
                            end
                        | None => (None, r5')
                        end
                    | _ => (Some (0%Z, 0%Z), r5)
                    end in
                  match sec_ms, parse_offset r6 with
                  | Some (sec, ms), Some off =>
                      if negb ((h <=? 24)%Z && (mi <=? 59)%Z && (sec <=? 59)%Z &&
                               (negb (h =? 24)%Z || ((mi =? 0)%Z && (sec =? 0)%Z && (ms =? 0)%Z)))
                      then None
                      else
                        let t := (day_ms + h * 3600000 + mi * 60000 + sec * 1000 + ms)%Z in
                        match off with
                        | None => Some (t - tza)%Z
                        | Some o => Some (t - o)%Z
                        end
                  | _, _ => None
                  end
              end
          | _ => None
          end
      | _ => None
      end
  end end end.

(** TimeClip *)
Definition time_clip (n : num) : date :=
  match n with
  | Fin q => if Qle_bool (Qabs q) (inject_Z 8640000000000000) then Some (if Qle_bool 0 q then Qfloor q else Qceiling q) else None
  | _ => None
  end.

(** [new Date(v)] with one argument *)
Definition new_date (tza : Z) (v : jsval) : date :=
  match v with
  | JStr s => parse_date_string tza s
  | JArr _ | JObj _ => parse_date_string tza (js_to_string v)
  | _ => time_clip (to_number v)
  end.

(** the number a [Date] converts to ([valueOf]) *)
Definition date_num (d : date) : num :=
  match d with Some t => Fin (inject_Z t) | None => NaN end.

(** [parseDateStr(dateStr, timeStr)]: [None] stands for [null], [Some d]
    for the [Date] object [d] (an Invalid Date is [Some None]) *)
Definition parseDateStr (tza : Z) (dateStr timeStr : jsval) : option date :=
  if negb (truthy dateStr) then None
  else
    let s := if truthy timeStr
             then JStr (js_to_string dateStr ++ "T" ++ js_to_string timeStr)
             else dateStr in
    Some (new_date tza s).

(** [parseDateStr(...) || new Date(0)]: a [Date] object is always truthy,
    so only [null] is replaced *)
Definition date_or_epoch (d : option date) : date :=
  match d with Some dt => dt | None => Some 0%Z end.

(* ------------------------------------------------------------------ *)
(** ** Utilization rows and the normaliser *)

Record row : Type := mkRow {
  usage_date : jsval;
  usage_time : jsval;
  utilization_pct : jsval;
  system_name : jsval;
  department_name : jsval
}.

(** [r[col]] on a normalised row *)
Definition row_get (r : row) (col : string) : jsval :=
  if String.eqb col "usage_date" then usage_date r
  else if String.eqb col "usage_time" then usage_time r
  else if String.eqb col "utilization_pct" then utilization_pct r
  else if String.eqb col "system_name" then system_name r
  else if String.eqb col "department_name" then department_name r
  else JUndef.

(** the arrow function of [raw.map(r => ({ ... }))]; [None] is the
    TypeError raised when [r] is [null] or [undefined] *)
Definition normalize_record (r : jsval) : option row :=
  match prop r "usage_date", prop r "usage_time", prop r "utilization_pct",
        prop r "utilization", prop r "system_name", prop r "system",
        prop r "department_name", prop r "department" with
  | Some ud, Some ut, Some up, Some u, Some sn, Some sy, Some dn, Some de =>
      Some {| usage_date := js_or ud (JStr "");
              usage_time := js_or ut (JStr "");
              utilization_pct := match up with
                                 | JUndef => js_or u (JNum (Fin 0))
                                 | _ => up
                                 end;
              system_name := js_or sn (js_or sy (JStr ""));
              department_name := js_or dn (js_or de (JStr "")) |}
  | _, _, _, _, _, _, _, _ => None
  end.

(** [raw.map(...)]: the first TypeError aborts the map *)
Fixpoint normalize (raw : list jsval) : option (list row) :=
  match raw with
  | [] => Some []
  | r :: rs =>
      match normalize_record r with
      | None => None
      | Some nr => option_map (cons nr) (normalize rs)
      end
  end.

(* ------------------------------------------------------------------ *)
(** ** [Array.prototype.sort] *)

Section Sort.
Context {A : Type}.

(** SortCompare: the comparator's result, NaN read as +0, tested for < 0 *)
Definition before (cmp : A -> A -> num) (x y : A) : bool := num_lt (cmp x y) (Fin 0).

Fixpoint insert (cmp : A -> A -> num) (x : A) (l : list A) : list A :=
  match l with
  | [] => [x]
  | y :: r => if before cmp x y then x :: y :: r else y :: insert cmp x r
  end.

Definition sort_list (cmp : A -> A -> num) (l : list A) : list A :=
  fold_left (fun acc x => insert cmp x acc) l [].
End Sort.

(* ------------------------------------------------------------------ *)
(** ** [sortData] *)

(** ASCII [toLowerCase] *)
Definition lower_char (c : ascii) : ascii :=
  let n := nat_of_ascii c in
  if ((65 <=? n) && (n <=? 90))%nat then ascii_of_nat (n + 32) else c.

Definition to_lower (s : string) : string :=
  string_of_list_ascii (map lower_char (chars s)).

(** string [<]: lexicographic on character codes *)
Fixpoint str_lt (a b : string) : bool :=
  match a, b with
  | EmptyString, String _ _ => true
  | String c a', String d b' =>
      let n := nat_of_ascii c in let m := nat_of_ascii d in
      if (n <? m)%nat then true else if (m <? n)%nat then false else str_lt a' b'
  | _, EmptyString => false
  end.

(** a comparison key after the column-specific coercion *)
Inductive key : Type :=
| KNum (n : num)
| KStr (s : string).

Definition key_lt (a b : key) : bool :=
  match a, b with
  | KNum x, KNum y => num_lt x y
  | KStr x, KStr y => str_lt x y
  | _, _ => false
  end.

Definition is_asc (dir : string) : bool := String.eqb dir "asc".

(** the comparator passed to [sort] in [sortData(data, col, dir)] *)
Definition sort_cmp (tza : Z) (col dir : string) (a b : row) : num :=
  if String.eqb col "usage_date" || String.eqb col "usage_time" then
    let aDate := date_or_epoch (parseDateStr tza (usage_date a) (usage_time a)) in
    let bDate := date_or_epoch (parseDateStr tza (usage_date b) (usage_time b)) in
    if is_asc dir then num_sub (date_num aDate) (date_num bDate)
    else num_sub (date_num bDate) (date_num aDate)
  else
    let '(A, B) :=
      if String.eqb col "utilization_pct" then
        let A := to_number (row_get a col) in
        let B := to_number (row_get b col) in
        (KNum (if num_isnan A then NegInf else A),
         KNum (if num_isnan B then NegInf else B))
      else
        (KStr (to_lower (js_to_string (js_or (row_get a col) (JStr "")))),
         KStr (to_lower (js_to_string (js_or (row_get b col) (JStr ""))))) in
    if key_lt A B then (if is_asc dir then Fin (-1) else Fin 1)
    else if key_lt B A then (if is_asc dir then Fin 1 else Fin (-1))
    else Fin 0.

(** [function sortData(data, col, dir)] *)
Definition sortData (tza : Z) (data : list row) (col dir : string) : list row :=
  sort_list (sort_cmp tza col dir) data.

(* ------------------------------------------------------------------ *)
(** ** Date-range filter of [applyFiltersAndRender] *)

(** [dateFromInput.value ? new Date(dateFromInput.value + "T00:00:00") : null] *)
Definition from_bound (tza : Z) (v : string) : option date :=
  if String.eqb v "" then None else Some (parse_date_string tza (v ++ "T00:00:00")).

(** [dateToInput.value ? new Date(dateToInput.value + "T23:59:59") : null] *)
Definition to_bound (tza : Z) (v : string) : option date :=
  if String.eqb v "" then None else Some (parse_date_string tza (v ++ "T23:59:59")).

(** the predicate of [normalized.filter(r => ...)] *)
Definition in_range (tza : Z) (from to : option date) (r : row) : bool :=
  if negb (truthy (usage_date r)) then false
  else
    match from, to with
    | None, None => true
    | _, _ =>
        let dt := date_num (date_or_epoch (parseDateStr tza (usage_date r) (usage_time r))) in
        if match from with Some f => num_lt dt (date_num f) | None => false end then false
        else if match to with Some t => num_lt (date_num t) dt | None => false end then false
        else true
    end.

Definition date_filter (tza : Z) (from to : option date) (rows : list row) : list row :=
  filter (in_range tza from to) rows.

(* ------------------------------------------------------------------ *)
(** ** [computeCards] *)

(** SameValueZero, as used by [Set]; every object or array of a parsed JSON
    document is a distinct reference *)
Definition same_value_zero (a b : jsval) : bool :=
  match a, b with
  | JUndef, JUndef | JNull, JNull => true
  | JBool x, JBool y => Bool.eqb x y
  | JNum x, JNum y => num_eqb x y
  | JStr x, JStr y => String.eqb x y
  | _, _ => false
  end.

(** [set.add(x)] on a set kept in insertion order *)
Definition set_add (x : jsval) (s : list jsval) : list jsval :=
  if existsb (same_value_zero x) s then s else s ++ [x].

Record summary : Type := mkSummary {
  total : nat;
  avg : num;
  max : num;
  min : num;
  systems : nat;
  depts : nat
}.

(** the variables of the [for (const r of data)] loop *)
Record acc : Type := mkAcc {
  systemsSet : list jsval;
  deptsSet : list jsval;
  sum : num;
  max_v : option num;  (* [null] is [None] *)
  min_v : option num
}.

Definition loop_step (a : acc) (r : row) : acc :=
  let ss := set_add (system_name r) (systemsSet a) in
  let ds := set_add (department_name r) (deptsSet a) in
  let v := to_number (utilization_pct r) in
  if negb (num_isnan v) then
    {| systemsSet := ss; deptsSet := ds;
       sum := num_add (sum a) v;
       max_v := match max_v a with
                | None => Some v
                | Some m => if num_lt m v then Some v else Some m
                end;
       min_v := match min_v a with
                | None => Some v
                | Some m => if num_lt v m then Some v else Some m
                end |}
  else {| systemsSet := ss; deptsSet := ds; sum := sum a;
          max_v := max_v a; min_v := min_v a |}.

Definition acc0 : acc := mkAcc [] [] (Fin 0) None None.

Definition computeCards (data : list row) : summary :=
  let tot := length data in
  let a := fold_left loop_step data acc0 in
  let av := if (0 <? tot)%nat then num_div (sum a) (Fin (inject_Z (Z.of_nat tot))) else Fin 0 in
  {| total := tot;
     avg := round av 2;
     max := match max_v a with None => Fin 0 | Some m => round m 2 end;
     min := match min_v a with None => Fin 0 | Some m => round m 2 end;
     systems := length (systemsSet a);
     depts := length (deptsSet a) |}.

(* ------------------------------------------------------------------ *)
(** ** Dashboard state and its handlers *)

(** the [textContent] of a card's [<p>] *)
Inductive card : Type :=
| CInit (s : string)   (* the page's initial content *)
| CDash                (* ["—"] *)
| CNum (n : num)       (* [summary.x] *)
| CPct (n : num).      (* [summary.x + "%"] *)

Record cards : Type := mkCards {
  cardTotal : card;
  cardAvg : card;
  cardMax : card;
  cardMin : card;
  cardSystems : card;
  cardDepts : card
}.

(** the content of [tableBody] *)
Inductive table_view : Type :=
| TInit
| TRows (rows : list row)   (* one [<tr>] per row, in this order *)
| TFailed.                  (* the "Failed to load data" placeholder row *)

(** the [Chart] object built by [renderChart(data)] *)
Record chart_view : Type := mkChart {
  labels : list string;
  values : list num;
  chart_rows : list row    (* [data], read by the tooltip callback *)
}.

Record ui : Type := mkUi {
  ui_cards : cards;
  tableBody : table_view;
  chart : option chart_view;          (* [let chart = null] *)
  currentData : list row;
  currentSort : string * string;      (* [{ col, dir }] *)
  tableSortState : list (string * option string);
  loading : bool
}.

(** the form controls read by [applyFiltersAndRender] *)
Record inputs : Type := mkInputs {
  systemSelect : string;
  departmentSelect : string;
  dateFromInput : string;
  dateToInput : string
}.

(** outcome of [fetchUtilization(system, dept)]: a rejected promise (network
    error, HTTP error status or a body that is not JSON) or the parsed body *)
Inductive fetch_result : Type :=
| FetchError
| FetchOk (body : jsval).

(** [function renderChart(data)]: the previous chart is destroyed and a new
    one built on [data] *)
Definition renderChart (data : list row) : chart_view :=
  {| labels := map (fun r => js_to_string (usage_date r) ++ " " ++ js_to_string (usage_time r)) data;
     values := map (fun r => to_number (utilization_pct r)) data;
     chart_rows := data |}.

Definition updateCards (s : summary) : cards :=
  {| cardTotal := CNum (Fin (inject_Z (Z.of_nat (total s))));
     cardAvg := CPct (avg s);
     cardMax := CPct (max s);
     cardMin := CPct (min s);
     cardSystems := CNum (Fin (inject_Z (Z.of_nat (systems s))));
     cardDepts := CNum (Fin (inject_Z (Z.of_nat (depts s)))) |}.

Definition set_loading (b : bool) (st : ui) : ui :=
  {| ui_cards := ui_cards st; tableBody := tableBody st; chart := chart st;
     currentData := currentData st; currentSort := currentSort st;
     tableSortState := tableSortState st; loading := b |}.

(** the [catch] block of [applyFiltersAndRender] *)
Definition render_failure (st : ui) : ui :=
  let c := ui_cards st in
  {| ui_cards := {| cardTotal := CDash; cardAvg := CDash; cardMax := CDash;
                    cardMin := CDash; cardSystems := cardSystems c;
                    cardDepts := cardDepts c |};
     tableBody := TFailed; chart := chart st;
     currentData := currentData st; currentSort := currentSort st;
     tableSortState := tableSortState st; loading := loading st |}.

(** the [try] block of [applyFiltersAndRender]; [None] when it throws *)
Definition apply_try (tza : Z) (api : string -> string -> fetch_result)
    (inp : inputs) (st : ui) : option ui :=
  let raw := api (systemSelect inp) (departmentSelect inp) in
  let normalized :=
    match raw with
    | FetchOk (JArr l) => normalize l
    | _ => None   (* rejected fetch, or [!Array.isArray(raw)] *)
    end in
  match normalized with
  | None => None
  | Some normalized =>
      let from := from_bound tza (dateFromInput inp) in
      let to := to_bound tza (dateToInput inp) in
      let filtered := date_filter tza from to normalized in
      let sortCol := let c := fst (currentSort st) in
                     if String.eqb c "" then "usage_date" else c in
      let sortDir := let d := snd (currentSort st) in
                     if String.eqb d "" then "desc" else d in
      let sorted := sortData tza filtered sortCol sortDir in
      Some {| ui_cards := updateCards (computeCards filtered);
              tableBody := TRows sorted;
              chart := Some (renderChart sorted);
              currentData := filtered;
              currentSort := currentSort st;
              tableSortState := tableSortState st;
              loading := loading st |}
  end.

(** [async function applyFiltersAndRender()] *)
Definition applyFiltersAndRender (tza : Z) (api : string -> string -> fetch_result)
    (inp : inputs) (st : ui) : ui :=
  let st1 := set_loading true st in
  let st2 := match apply_try tza api inp st1 with
             | Some st' => st'
             | None => render_failure st1
             end in
  set_loading false st2.

(** the click handler of the header of column [col] *)
Definition header_click (tza : Z) (col : string) (st : ui) : ui :=
  let prev := match find (fun kv => String.eqb (fst kv) col) (tableSortState st) with
              | Some (_, p) => p
              | None => None
              end in
  let next := match prev with
              | Some p => if String.eqb p "asc" then "desc" else "asc"
              | None => "asc"
              end in
  let reset := map (fun kv => (fst kv, @None string)) (tableSortState st) in
  let tss := if existsb (fun kv => String.eqb (fst kv) col) reset
             then map (fun kv => if String.eqb (fst kv) col then (col, Some next) else kv) reset
             else (reset ++ [(col, Some next)])%list in
  let sorted := sortData tza (currentData st) col next in
  {| ui_cards := ui_cards st;
     tableBody := TRows sorted;
     chart := Some (renderChart sorted);
     currentData := currentData st;
     currentSort := (col, next);
     tableSortState := tss;
     loading := loading st |}.

(** the state before the first fetch: headers [cols], default sort *)
Definition init_ui (cols : list string) : ui :=
  {| ui_cards := mkCards (CInit "") (CInit "") (CInit "") (CInit "") (CInit "") (CInit "");
     tableBody := TInit; chart := None; currentData := [];
     currentSort := ("usage_date", "desc");
     tableSortState := map (fun c => (c, @None string)) cols;
     loading := false |}.

(* ------------------------------------------------------------------ *)
(** ** The insertion sort on a comparator that orders by a partial key *)

Open Scope list_scope.

(* ------------------------------------------------------------------ *)
(** ** Orders of the insertion sort on a partial key *)

(** [x] goes strictly before [y]: both keys exist and are ordered by [ltK] *)
Definition bef {A K : Type} (ltK : K -> K -> bool) (kf : A -> option K) (x y : A) : bool :=
  match kf x, kf y with Some u, Some v => ltK u v | _, _ => false end.

(** no element is strictly before one that precedes it *)
Definition ordered {A K : Type} (ltK : K -> K -> bool) (kf : A -> option K) (l : list A) : Prop :=
  ForallOrdPairs (fun a b => bef ltK kf b a = false) l.

Definition befP {A K : Type} (ltK : K -> K -> bool) (kf : A -> option K) (x y : A) : Prop :=
  bef ltK kf x y = true.

(* ------------------------------------------------------------------ *)
(** ** Column keys of [sortData] *)

(** the value a column's comparator orders by: a time value for the date
    columns, a number for [utilization_pct] (NaN read as -Infinity), a
    lower-cased string otherwise; [None] is a NaN time value *)
Inductive skey : Type :=
| SZ (t : Z)
| SN (n : num)
| SS (s : string).

Definition skey_lt (a b : skey) : bool :=
  match a, b with
  | SZ x, SZ y => Z.ltb x y
  | SN x, SN y => num_lt x y
  | SS x, SS y => str_lt x y
  | _, _ => false
  end.

(** a number in canonical form: NaN as -Infinity, a rational reduced *)
Definition num_key (n : num) : num :=
  match n with NaN => NegInf | Fin q => Fin (Qred q) | _ => n end.

Definition row_time (tza : Z) (r : row) : date :=
  date_or_epoch (parseDateStr tza (usage_date r) (usage_time r)).

Definition col_key (tza : Z) (col : string) (r : row) : option skey :=
  if String.eqb col "usage_date" || String.eqb col "usage_time" then
    option_map SZ (row_time tza r)
  else if String.eqb col "utilization_pct" then
    Some (SN (num_key (to_number (row_get r col))))
  else Some (SS (to_lower (js_to_string (js_or (row_get r col) (JStr ""))))).

(** the order of a direction: ["asc"] ascending, any other descending *)
Definition dir_lt (dir : string) (a b : skey) : bool :=
  if is_asc dir then skey_lt a b else skey_lt b a.

Definition Q_eq_dec_struct (p q : Q) : {p = q} + {p <> q}.
Proof. decide equality; [apply Pos.eq_dec | apply Z.eq_dec]. Defined.

Definition num_eq_dec (a b : num) : {a = b} + {a <> b}.
Proof. decide equality; apply Q_eq_dec_struct. Defined.

Definition skey_eq_dec (a b : skey) : {a = b} + {a <> b}.
Proof. decide equality; [apply Z.eq_dec | apply num_eq_dec | apply string_dec]. Defined.

Definition okey_eq_dec (a b : option skey) : {a = b} + {a <> b}.
Proof. decide equality; apply skey_eq_dec. Defined.

(** equality of column keys *)
Definition key_eqb (a b : option skey) : bool :=
  if okey_eq_dec a b then true else false.

(** the keys of two rows are strictly ordered (both exist and differ) *)
Definition keys_strict (tza : Z) (col : string) (a b : row) : Prop :=
  match col_key tza col a, col_key tza col b with
  | Some u, Some v => skey_lt u v = true \/ skey_lt v u = true
  | _, _ => False
  end.

(** rows in chronologically non-decreasing order *)
Definition chrono_asc (tza : Z) (l : list row) : Prop :=
  ForallOrdPairs (fun a b => match row_time tza a, row_time tza b with
                             | Some u, Some v => (u <= v)%Z
                             | _, _ => False
                             end) l.

(** the coerced [utilization_pct] values that are not NaN, in row order *)
Definition nonnan_values (data : list row) : list num :=
  filter (fun v => negb (num_isnan v)) (map (fun r => to_number (utilization_pct r)) data).

Definition num_sum (l : list num) : num := fold_left num_add l (Fin 0).

(** the rounding the specification describes: [sign(n) * round-half-up(|n| * 100) / 100] *)
Definition round_half_away (q : Q) : Q :=
  let r := inject_Z (Qfloor (Qabs q * inject_Z 100 + (1 # 2))) / inject_Z 100 in
  if Qltb q 0 then - r else r.

(** [n * 100] is negative and exactly halfway between two integers *)
Definition negative_tie (q : Q) : bool :=
  Qltb q 0 &&
  Qeq_bool (inject_Z (Qfloor (q * inject_Z 100 + (1 # 2)))) (q * inject_Z 100 + (1 # 2)).

(* ------------------------------------------------------------------ *)
(** ** Concrete inputs *)

(** a raw API record with a date and a utilization value *)
Definition raw_rec (d : string) (p : jsval) : jsval :=
  JObj [("usage_date", JStr d); ("utilization_pct", p)].

(** the normalised row of [raw_rec d p] *)
Definition row_dp (d : string) (p : jsval) : row :=
  mkRow (JStr d) (JStr "") p (JStr "") (JStr "").

(** an API answering with a fixed array, and one that always fails *)
Definition api_rows (l : list jsval) : string -> string -> fetch_result :=
  fun _ _ => FetchOk (JArr l).
Definition api_down : string -> string -> fetch_result := fun _ _ => FetchError.

Definition header_cols : list string :=
  ["usage_date"; "usage_time"; "system_name"; "department_name"; "utilization_pct"].

Definition no_filters : inputs := mkInputs "" "" "" "".

(** Scenario A: two records, newest first *)
Definition raw_A : list jsval :=
  [raw_rec "2024-01-02" (JNum (Fin 50)); raw_rec "2024-01-01" (JNum (Fin 80))].

Definition rows_A : list row :=
  [row_dp "2024-01-02" (JNum (Fin 50)); row_dp "2024-01-01" (JNum (Fin 80))].

(** the dashboard after the initial apply on Scenario A (UTC) *)
Definition state_A : ui :=
  applyFiltersAndRender 0 (api_rows raw_A) no_filters (init_ui header_cols).

(** the same dashboard after a failing apply *)
Definition state_A_down : ui := applyFiltersAndRender 0 api_down no_filters state_A.

(** Scenario B: utilization values [10, "bad", 30] *)
Definition rows_B : list row :=
  [row_dp "2024-01-01" (JNum (Fin 10)); row_dp "2024-01-01" (JStr "bad");
   row_dp "2024-01-01" (JNum (Fin 30))].

(** a non-finite utilization that still coerces to a number *)
Definition rows_inf : list row :=
  [row_dp "2024-01-01" (JStr "Infinity"); row_dp "2024-01-01" (JNum (Fin 10))].

(** the finite coerced utilization values, in row order *)
Definition finite_values (data : list row) : list num :=
  flat_map (fun r => match to_number (utilization_pct r) with
                     | Fin q => [Fin q]
                     | _ => []
                     end) data.

(** the average as the specification words it: finite values over the row count *)
Definition spec_avg (data : list row) : num :=
  round (if (0 <? length data)%nat
         then num_div (num_sum (finite_values data)) (Fin (inject_Z (Z.of_nat (length data))))
         else Fin 0) 2.

Definition rows_minf : list row :=
  [row_dp "2024-01-01" (JStr "-Infinity"); row_dp "2024-01-01" (JStr "bad")].

Definition rows_pct : list row :=
  [row_dp "2024-01-01" (JNum (Fin 5)); row_dp "2024-01-01" (JStr "bad")].

Definition rows_10_20 : list row :=
  [row_dp "2024-01-01" (JNum (Fin 10)); row_dp "2024-01-01" (JNum (Fin 20))].

(** a row whose date does not parse *)
Definition row_garbage : row := row_dp "garbage" (JNum (Fin 0)).
(* ------------------------------------------------------------------ *)
(** ** HTML output: [escapeHtml], [renderTable] and [loadFilters] *)

Definition nl : string := String (ascii_of_nat 10) "".
Definition dq : string := String (ascii_of_nat 34) "".

(** the replacement of one character in [escapeHtml] *)
Definition escape_char (c : ascii) : string :=
  if (c =? "&")%char then "&amp;"
  else if (c =? "<")%char then "&lt;"
  else if (c =? ">")%char then "&gt;"
  else if (c =? ascii_of_nat 34)%char then "&quot;"
  else if (c =? "'")%char then "&#39;"
  else String c "".

(** [String(s).replace(...)] on the five characters ampersand, less-than,
    greater-than, double quote and apostrophe *)
Fixpoint escape_string (s : string) : string :=
  match s with
  | EmptyString => ""
  | String c r => escape_char c ++ escape_string r
  end.

(** [function escapeHtml(s)] *)
Definition escapeHtml (v : jsval) : string :=
  match v with
  | JUndef | JNull => ""
  | _ => escape_string (js_to_string v)
  end.

(** decoding of the five character references [escapeHtml] produces *)
Fixpoint html_unescape (s : string) : string :=
  match s with
  | EmptyString => EmptyString
  | String c r =>
      if (c =? "&")%char then
        match r with
        | String c2 (String c3 (String c4 r4)) =>
            if (c2 =? "l")%char && (c3 =? "t")%char && (c4 =? ";")%char
            then String "<" (html_unescape r4)
            else if (c2 =? "g")%char && (c3 =? "t")%char && (c4 =? ";")%char
            then String ">" (html_unescape r4)
            else
              match r4 with
              | String c5 r5 =>
                  if (c2 =? "a")%char && (c3 =? "m")%char && (c4 =? "p")%char && (c5 =? ";")%char
                  then String "&" (html_unescape r5)
                  else if (c2 =? "#")%char && (c3 =? "3")%char && (c4 =? "9")%char && (c5 =? ";")%char
                  then String "'" (html_unescape r5)
                  else
                    match r5 with
                    | String c6 r6 =>
                        if (c2 =? "q")%char && (c3 =? "u")%char && (c4 =? "o")%char &&
                           (c5 =? "t")%char && (c6 =? ";")%char
                        then String (ascii_of_nat 34) (html_unescape r6)
                        else String c (html_unescape r)
                    | EmptyString => String c (html_unescape r)
                    end
              | EmptyString => String c (html_unescape r)
              end
        | _ => String c (html_unescape r)
        end
      else String c (html_unescape r)
  end.

(** number of occurrences of a character *)
Fixpoint count_char (c : ascii) (s : string) : nat :=
  match s with
  | EmptyString => O
  | String d r => (if (d =? c)%char then 1 else 0) + count_char c r
  end.

(** the template literal of one row in [renderTable] *)
Definition table_row_html (r : row) : string :=
  nl ++ "    <tr>" ++ nl ++
  "      <td>" ++ escapeHtml (usage_date r) ++ "</td>" ++ nl ++
  "      <td>" ++ escapeHtml (usage_time r) ++ "</td>" ++ nl ++
  "      <td>" ++ escapeHtml (system_name r) ++ "</td>" ++ nl ++
  "      <td>" ++ escapeHtml (department_name r) ++ "</td>" ++ nl ++
  "      <td>" ++ escapeHtml (utilization_pct r) ++ "</td>" ++ nl ++
  "    </tr>" ++ nl ++ "  ".

(** [function renderTable(data)]: the new [innerHTML] of the table body *)
Definition renderTable (data : list row) : string :=
  String.concat "" (map table_row_html data).

(** the template literal of one option: the escaped value as the value
    attribute and as the text *)
Definition option_html (v : jsval) : string :=
  "<option value=" ++ dq ++ escapeHtml v ++ dq ++ ">" ++ escapeHtml v ++ "</option>".

Definition all_systems_html : string := "<option value=" ++ dq ++ dq ++ ">All Systems</option>".
Definition all_depts_html : string := "<option value=" ++ dq ++ dq ++ ">All Departments</option>".

(** [xs.map(x => x.k)]: a TypeError on a [null] or [undefined] element *)
Fixpoint map_prop (l : list jsval) (k : string) : option (list jsval) :=
  match l with
  | [] => Some []
  | x :: r =>
      match prop x k with
      | None => None
      | Some v => option_map (cons v) (map_prop r k)
      end
  end.

(** [body.map(...)] on a parsed JSON body: only an array has a [map] method *)
Definition array_map_prop (body : jsval) (k : string) : option (list jsval) :=
  match body with JArr l => map_prop l k | _ => None end.

(** the [innerHTML] of the two select elements *)
Record filter_selects : Type := mkSelects {
  systemOptions : string;
  departmentOptions : string
}.

(** [async function loadFilters()], given the outcomes of the two fetches
    joined by [Promise.all]; when the departments' [map] throws after the
    systems' select was filled, the [catch] block resets both selects *)
Definition loadFilters (sys dept : fetch_result) : filter_selects :=
  let fallback := mkSelects all_systems_html all_depts_html in
  match sys, dept with
  | FetchOk sb, FetchOk db =>
      match array_map_prop sb "system_name" with
      | None => fallback
      | Some ss =>
          match array_map_prop db "department_name" with
          | None => fallback
          | Some ds =>
              mkSelects (all_systems_html ++ String.concat "" (map option_html ss))
                        (all_depts_html ++ String.concat "" (map option_html ds))
          end
      end
  | _, _ => fallback
  end.

(* ------------------------------------------------------------------ *)
(** ** Header arrows and the theme toggle *)

Inductive arrow : Type := ArrowUp | ArrowDown.

(** [tableSortState[col]] *)
Definition sort_state_of (tss : list (string * option string)) (col : string) : option string :=
  match find (fun kv => String.eqb (fst kv) col) tss with
  | Some (_, p) => p
  | None => None
  end.

(** [function updateHeaderArrows()]: the arrow each header of [headers] shows *)
Definition header_arrows (headers : list string) (tss : list (string * option string))
    : list (option arrow) :=
  map (fun col =>
         match sort_state_of tss col with
         | None => None
         | Some s =>
             if String.eqb s "" then None
             else Some (if String.eqb s "asc" then ArrowUp else ArrowDown)
         end) headers.

Inductive theme_icon : Type := IconSun | IconMoon.

(** the body's [light] class, the toggle's icon and the stored preference *)
Record theme_state : Type := mkTheme {
  light : bool;
  icon : theme_icon;
  stored : option string
}.

(** [function initTheme()] *)
Definition initTheme (st : theme_state) : theme_state :=
  let t := match stored st with
           | Some s => if String.eqb s "" then "dark" else s
           | None => "dark"
           end in
  let l := String.eqb t "light" in
  mkTheme l (if l then IconSun else IconMoon) (stored st).

(** the click handler of the theme toggle *)
Definition toggleTheme (st : theme_state) : theme_state :=
  let l := negb (light st) in
  let now := if l then "light" else "dark" in
  mkTheme l (if String.eqb now "light" then IconSun else IconMoon) (Some now).

(* ------------------------------------------------------------------ *)
(** ** [fetchUtilization]: the request URL *)

Definition API_BASE : string := "https://drm.pythonanywhere.com/".
Definition ENDPOINT_FILTER : string := (API_BASE ++ "/utilization/filter")%string.

(** an upper-case hexadecimal digit *)
Definition hex_digit (n : nat) : ascii :=
  if (n <? 10)%nat then ascii_of_nat (48 + n) else ascii_of_nat (55 + n).

(** the application/x-www-form-urlencoded byte serializer used by
    [URLSearchParams]; a string is modelled as its UTF-8 bytes *)
Definition form_byte (c : ascii) : string :=
  let n := nat_of_ascii c in
  if (n =? 32)%nat then "+"
  else if (n =? 42)%nat || (n =? 45)%nat || (n =? 46)%nat ||
          ((48 <=? n)%nat && (n <=? 57)%nat) || ((65 <=? n)%nat && (n <=? 90)%nat) ||
          (n =? 95)%nat || ((97 <=? n)%nat && (n <=? 122)%nat)
  then String c ""
  else String "%" (String (hex_digit (n / 16)) (String (hex_digit (n mod 16)) "")).

Fixpoint form_encode (s : string) : string :=
  match s with
  | EmptyString => ""
  | String c r => (form_byte c ++ form_encode r)%string
  end.

(** [params.toString()] *)
Definition serialize_params (ps : list (string * string)) : string :=
  String.concat "&" (map (fun p => (form_encode (fst p) ++ "=" ++ form_encode (snd p))%string) ps).

(** the parameters [fetchUtilization(system, department)] appends *)
Definition utilization_params (system department : string) : list (string * string) :=
  (if String.eqb system "" then [] else [("system", system)]) ++
  (if String.eqb department "" then [] else [("department", department)]).

(** the URL [fetchUtilization(system, department)] fetches *)
Definition fetchUtilization_url (system department : string) : string :=
  (ENDPOINT_FILTER ++ "?" ++ serialize_params (utilization_params system department))%string.

(** the application/x-www-form-urlencoded parser a server applies to the query *)
Definition hex_val (c : ascii) : option nat :=
  let n := nat_of_ascii c in
  if ((48 <=? n)%nat && (n <=? 57)%nat) then Some (n - 48)%nat
  else if ((65 <=? n)%nat && (n <=? 70)%nat) then Some (n - 55)%nat
  else if ((97 <=? n)%nat && (n <=? 102)%nat) then Some (n - 87)%nat
  else None.

Fixpoint percent_decode (s : string) : string :=
  match s with
  | EmptyString => EmptyString
  | String c r =>
      if (c =? "%")%char then
        match r with
        | String h1 (String h2 r2) =>
            match hex_val h1, hex_val h2 with
            | Some a, Some b => String (ascii_of_nat (a * 16 + b)) (percent_decode r2)
            | _, _ => String c (percent_decode r)
            end
        | _ => String c (percent_decode r)
        end
      else String c (percent_decode r)
  end.

Fixpoint replace_plus (s : string) : string :=
  match s with
  | EmptyString => EmptyString
  | String c r => String (if (c =? "+")%char then " "%char else c) (replace_plus r)
  end.

Fixpoint split_on (sep : ascii) (s : string) : list string :=
  match s with
  | EmptyString => [""]
  | String c r =>
      if (c =? sep)%char then "" :: split_on sep r
      else match split_on sep r with
           | [] => [String c ""]
           | w :: ws => String c w :: ws
           end
  end.

(** name and value of one sequence: split at the first [=] *)
Fixpoint break_eq (s : string) : string * string :=
  match s with
  | EmptyString => ("", "")
  | String c r =>
      if (c =? "=")%char then ("", r)
      else let '(a, b) := break_eq r in (String c a, b)
  end.

Definition form_parse (q : string) : list (string * string) :=
  map (fun seq => let '(a, b) := break_eq seq in
                  (percent_decode (replace_plus a), percent_decode (replace_plus b)))
      (filter (fun seq => negb (String.eqb seq "")) (split_on "&" q)).

(* ------------------------------------------------------------------ *)
(** ** [setDateInputsRangeFromData] *)

Definition msPerDay : Z := 86400000.

(** the calendar date of a day number (days since 1970-01-01) *)
Definition civil_from_days (z0 : Z) : Z * Z * Z := (
  let z := z0 + 719468 in
  let era := z / 146097 in
  let doe := z - era * 146097 in
  let yoe := (doe - doe / 1460 + doe / 36524 - doe / 146096) / 365 in
  let y := yoe + era * 400 in
  let doy := doe - (365 * yoe + yoe / 4 - yoe / 100) in
  let mp := (5 * doy + 2) / 153 in
  let d := doy - (153 * mp + 2) / 5 + 1 in
  let m := if mp <? 10 then mp + 3 else mp - 9 in
  (if m <=? 2 then y + 1 else y, m, d))%Z.

(** [getFullYear()], [getMonth() + 1] and [getDate()] of a time value:
    the calendar date of its local time [t + tza] *)
Definition local_ymd (tza t : Z) : Z * Z * Z := civil_from_days ((t + tza) / msPerDay)%Z.

Definition local_year (tza t : Z) : Z := fst (fst (local_ymd tza t)).

(** [s.padStart(k, c)] for a one-character filler *)
Definition padStart (k : nat) (c : ascii) (s : string) : string :=
  (string_of_list_ascii (repeat c (k - String.length s)) ++ s)%string.

(** [pad] of [setDateInputsRangeFromData] *)
Definition pad (n : num) : string := padStart 2 "0" (num_to_string n).

(** [toISODate] of [setDateInputsRangeFromData]; an Invalid Date has
    [NaN] for every component *)
Definition toISODate (tza : Z) (d : date) : string :=
  match d with
  | None => "NaN-NaN-NaN"
  | Some t =>
      let '(y, m, dd) := local_ymd tza t in
      (num_to_string (Fin (inject_Z y)) ++ "-" ++ pad (Fin (inject_Z m)) ++ "-" ++
       pad (Fin (inject_Z dd)))%string
  end.

(** [validDates]: the time values of the rows whose date is valid *)
Definition valid_times (tza : Z) (data : list row) : list Z :=
  flat_map (fun r => match parseDateStr tza (usage_date r) (usage_time r) with
                     | Some (Some t) => [t]
                     | _ => []
                     end) data.

(** the value, [min] and [max] of the two date inputs *)
Record date_inputs : Type := mkDateInputs {
  from_value : string;
  to_value : string;
  from_min : string;
  from_max : string;
  to_min : string;
  to_max : string
}.

Definition empty_inputs : date_inputs := mkDateInputs "" "" "" "" "" "".

Definition setDateInputsRangeFromData (tza : Z) (data : list row) (di : date_inputs) : date_inputs :=
  match valid_times tza data with
  | [] => di
  | t :: ts =>
      let lo := toISODate tza (time_clip (Fin (inject_Z (fold_left Z.min ts t)))) in
      let hi := toISODate tza (time_clip (Fin (inject_Z (fold_left Z.max ts t)))) in
      {| from_value := if String.eqb (from_value di) "" then lo else from_value di;
         to_value := if String.eqb (to_value di) "" then hi else to_value di;
         from_min := lo; from_max := hi; to_min := lo; to_max := hi |}
  end.

(* ------------------------------------------------------------------ *)
(** ** Proofs *)

Section SortSpec.
Context {A K : Type}.
Variable ltK : K -> K -> bool.
Variable kf : A -> option K.
Hypothesis ltK_irrefl : forall u, ltK u u = false.
Hypothesis ltK_trans : forall u v w, ltK u v = true -> ltK v w = true -> ltK u w = true.

Lemma bef_irrefl x : bef ltK kf x x = false.
Proof. unfold bef; destruct (kf x); auto. Qed.

Lemma bef_trans x y z : bef ltK kf x y = true -> bef ltK kf y z = true -> bef ltK kf x z = true.
Proof.
  unfold bef; destruct (kf x), (kf y), (kf z); try discriminate; eauto.
Qed.

Lemma bef_asym x y : bef ltK kf x y = true -> bef ltK kf y x = false.
Proof.
  intros H. destruct (bef ltK kf y x) eqn:E; auto.
  rewrite <- (bef_irrefl x). symmetry. eapply bef_trans; eauto.
Qed.

Lemma bef_same_key z x y : kf z = kf x -> bef ltK kf z y = bef ltK kf x y.
Proof. unfold bef; intros ->; reflexivity. Qed.

Variable cmp : A -> A -> num.
Hypothesis Hcmp : forall x y, before cmp x y = bef ltK kf x y.

Lemma insert_perm x l : Permutation (insert cmp x l) (x :: l).
Proof.
  induction l as [|y r IH]; simpl; auto.
  destruct (before cmp x y); auto.
  eapply perm_trans; [apply perm_skip, IH | apply perm_swap].
Qed.

Lemma insert_ordered x l : ordered ltK kf l -> ordered ltK kf (insert cmp x l).
Proof.
  unfold ordered; induction l as [|y r IH]; simpl; intros Hl.
  - repeat constructor.
  - inversion Hl as [|? ? Hy Hr]; subst.
    rewrite Hcmp; destruct (bef ltK kf x y) eqn:Exy.
    + constructor; [constructor|constructor; auto].
      * now apply bef_asym.
      * rewrite Forall_forall in *; intros z Hz.
        destruct (bef ltK kf z x) eqn:Ezx; auto.
        rewrite <- (Hy z Hz); symmetry; eapply bef_trans; eauto.
    + constructor; auto.
      rewrite Forall_forall in *; intros z Hz.
      apply (Permutation_in _ (insert_perm x r)) in Hz.
      destruct Hz as [<-|Hz]; auto.
Qed.

Lemma sort_perm_acc l acc :
  Permutation (fold_left (fun acc x => insert cmp x acc) l acc) (l ++ acc).
Proof.
  revert acc; induction l as [|x l IH]; simpl; intros acc; auto.
  eapply perm_trans; [apply IH|].
  eapply perm_trans; [apply Permutation_app_head, insert_perm|].
  apply Permutation_sym, Permutation_middle.
Qed.

Lemma sort_perm l : Permutation (sort_list cmp l) l.
Proof. unfold sort_list; rewrite <- (app_nil_r l) at 2; apply sort_perm_acc. Qed.

Lemma sort_ordered_acc l acc :
  ordered ltK kf acc -> ordered ltK kf (fold_left (fun acc x => insert cmp x acc) l acc).
Proof.
  revert acc; induction l as [|x l IH]; simpl; intros acc H; auto.
  apply IH, insert_ordered, H.
Qed.

Lemma sort_ordered l : ordered ltK kf (sort_list cmp l).
Proof. apply sort_ordered_acc; constructor. Qed.

(** stability: the rows of one key keep their order *)
Section Stable.
Variable P : A -> bool.
Hypothesis HP : forall x y, P x = true -> P y = true -> kf x = kf y.

Lemma filter_insert x l :
  ordered ltK kf l -> filter P (insert cmp x l) = filter P l ++ filter P [x].
Proof.
  unfold ordered; induction l as [|y r IH]; simpl; intros Hl; auto.
  inversion Hl as [|? ? Hy Hr]; subst.
  rewrite Hcmp; destruct (bef ltK kf x y) eqn:Exy.
  - simpl. destruct (P x) eqn:Px.
    + assert (Hnil : filter P (y :: r) = []).
      { simpl. destruct (P y) eqn:Py.
        - rewrite (bef_same_key x y y (HP _ _ Px Py)), bef_irrefl in Exy; discriminate.
        - destruct (filter P r) as [|z rest] eqn:Ef; auto.
          assert (Hz : In z (filter P r)) by (rewrite Ef; left; auto).
          apply filter_In in Hz as [Hz Pz].
          rewrite Forall_forall in Hy; specialize (Hy z Hz).
          rewrite (bef_same_key z x y (HP _ _ Pz Px)), Exy in Hy; discriminate. }
      simpl in Hnil; rewrite Hnil; reflexivity.
    + simpl; rewrite app_nil_r; reflexivity.
  - simpl. destruct (P y); simpl; rewrite IH; auto.
Qed.

Lemma filter_sort_acc l acc :
  ordered ltK kf acc ->
  filter P (fold_left (fun acc x => insert cmp x acc) l acc) = filter P acc ++ filter P l.
Proof.
  revert acc; induction l as [|x l IH]; simpl; intros acc H.
  - rewrite app_nil_r; reflexivity.
  - rewrite IH by (apply insert_ordered, H).
    rewrite filter_insert by exact H.
    rewrite <- app_assoc; simpl; destruct (P x); reflexivity.
Qed.

Lemma filter_sort l : filter P (sort_list cmp l) = filter P l.
Proof. unfold sort_list; rewrite filter_sort_acc by constructor; reflexivity. Qed.
End Stable.

Lemma insert_sorted x l :
  Forall (fun y => bef ltK kf x y = true \/ bef ltK kf y x = true) l ->
  Sorted (befP ltK kf) l -> Sorted (befP ltK kf) (insert cmp x l).
Proof.
  induction l as [|y r IH]; simpl; intros Hc Hs.
  - repeat constructor.
  - inversion Hc as [|? ? Hxy Hcr]; subst.
    apply Sorted_inv in Hs as [Hsr Hhd].
    rewrite Hcmp; destruct (bef ltK kf x y) eqn:Exy.
    + constructor; [constructor; auto|constructor; exact Exy].
    + destruct Hxy as [Hxy|Hyx]; [congruence|].
      constructor; [apply IH; auto|].
      destruct r as [|z r']; simpl.
      * constructor; exact Hyx.
      * rewrite Hcmp; destruct (bef ltK kf x z); constructor; auto.
        inversion Hhd; auto.
Qed.

Lemma sort_sorted_acc l acc :
  ForallOrdPairs (fun a b => bef ltK kf a b = true \/ bef ltK kf b a = true) l ->
  (forall a b, In a acc -> In b l -> bef ltK kf b a = true \/ bef ltK kf a b = true) ->
  Sorted (befP ltK kf) acc ->
  Sorted (befP ltK kf) (fold_left (fun acc x => insert cmp x acc) l acc).
Proof.
  revert acc; induction l as [|x l IH]; simpl; intros acc Hl Hacc Hs; auto.
  inversion Hl as [|? ? Hx Hl']; subst.
  apply IH; auto.
  - intros a b Ha Hb.
    apply (Permutation_in _ (insert_perm x acc)) in Ha.
    destruct Ha as [<-|Ha].
    + rewrite Forall_forall in Hx; destruct (Hx b Hb); auto.
    + apply Hacc; simpl; auto.
  - apply insert_sorted; auto.
    apply Forall_forall; intros y Hy; apply Hacc; simpl; auto.
Qed.

Lemma sort_sorted l :
  ForallOrdPairs (fun a b => bef ltK kf a b = true \/ bef ltK kf b a = true) l ->
  Sorted (befP ltK kf) (sort_list cmp l).
Proof. intros H; apply sort_sorted_acc; simpl; auto; contradiction. Qed.
End SortSpec.

Section Unique.
Context {A : Type}.
Variable R : A -> A -> Prop.
Hypothesis R_asym : forall x y, R x y -> R y x -> False.

Lemma strongly_sorted_perm_eq l1 l2 :
  StronglySorted R l1 -> StronglySorted R l2 -> Permutation l1 l2 -> l1 = l2.
Proof.
  revert l2; induction l1 as [|a t1 IH]; intros l2 H1 H2 Hp.
  - symmetry; apply Permutation_nil, Hp.
  - destruct l2 as [|b t2].
    + apply Permutation_sym, Permutation_nil in Hp; discriminate.
    + apply StronglySorted_inv in H1 as [H1 Ha]; apply StronglySorted_inv in H2 as [H2 Hb].
      assert (a = b) as <-.
      { assert (Ha2 : In a (b :: t2)) by (apply (Permutation_in _ Hp); left; auto).
        assert (Hb1 : In b (a :: t1)) by (apply (Permutation_in _ (Permutation_sym Hp)); left; auto).
        destruct Ha2 as [|Ha2]; auto; destruct Hb1 as [|Hb1]; auto.
        rewrite Forall_forall in Ha, Hb.
        exfalso; apply (R_asym a b); auto. }
      f_equal; apply IH; auto.
      eapply Permutation_cons_inv; eauto.
Qed.

End Unique.

Lemma strongly_sorted_app {A : Type} (R : A -> A -> Prop) l1 l2 :
  StronglySorted R l1 -> StronglySorted R l2 ->
  (forall x y, In x l1 -> In y l2 -> R x y) -> StronglySorted R (l1 ++ l2).
Proof.
  induction l1 as [|a t IH]; simpl; intros H1 H2 Hxy; auto.
  apply StronglySorted_inv in H1 as [H1 Ha].
  constructor; [apply IH; auto|].
  apply Forall_app; split; auto.
  apply Forall_forall; intros y Hy; apply Hxy; auto.
Qed.

Lemma strongly_sorted_rev {A : Type} (R : A -> A -> Prop) l :
  StronglySorted R l -> StronglySorted (fun a b => R b a) (rev l).
Proof.
  induction l as [|a t IH]; simpl; intros H; [constructor|].
  apply StronglySorted_inv in H as [Ht Ha].
  apply (strongly_sorted_app (fun a b => R b a)); auto.
  - repeat constructor.
  - intros x y Hx [<-|[]]. apply in_rev in Hx.
    rewrite Forall_forall in Ha; auto.
Qed.

(* ------------------------------------------------------------------ *)
(** ** Facts about the orders *)

Lemma Qltb_iff x y : Qltb x y = true <-> x < y.
Proof.
  unfold Qltb; rewrite negb_true_iff; split; intros H.
  - apply Qnot_le_lt; intros Hle; apply Qle_bool_iff in Hle; congruence.
  - destruct (Qle_bool y x) eqn:E; auto.
    apply Qle_bool_iff in E; exfalso; apply (Qlt_not_le x y); auto.
Qed.

Lemma Qltb_compat x x' y y' : x == x' -> y == y' -> Qltb x y = Qltb x' y'.
Proof.
  intros Hx Hy; destruct (Qltb x y) eqn:E1, (Qltb x' y') eqn:E2; auto.
  - apply Qltb_iff in E1; rewrite Hx, Hy in E1; apply Qltb_iff in E1; congruence.
  - apply Qltb_iff in E2; rewrite <- Hx, <- Hy in E2; apply Qltb_iff in E2; congruence.
Qed.

Lemma num_lt_irrefl n : num_lt n n = false.
Proof.
  destruct n; simpl; auto.
  destruct (Qltb q q) eqn:E; auto; apply Qltb_iff in E; exfalso; apply (Qlt_irrefl q); auto.
Qed.

Lemma num_lt_trans a b c : num_lt a b = true -> num_lt b c = true -> num_lt a c = true.
Proof.
  destruct a, b, c; simpl; try discriminate; auto.
  rewrite !Qltb_iff; apply Qlt_trans.
Qed.

Lemma num_lt_asym a b : num_lt a b = true -> num_lt b a = false.
Proof.
  intros H; destruct (num_lt b a) eqn:E; auto.
  rewrite <- (num_lt_irrefl a); symmetry; eapply num_lt_trans; eauto.
Qed.

Lemma str_lt_irrefl s : str_lt s s = false.
Proof. induction s; simpl; auto; rewrite Nat.ltb_irrefl; auto. Qed.

Lemma str_lt_trans a b c : str_lt a b = true -> str_lt b c = true -> str_lt a c = true.
Proof.
  revert b c; induction a as [|x a IH]; intros [|y b] [|z c]; simpl; try discriminate; auto.
  destruct (Nat.ltb_spec (nat_of_ascii x) (nat_of_ascii y));
  destruct (Nat.ltb_spec (nat_of_ascii y) (nat_of_ascii x));
  destruct (Nat.ltb_spec (nat_of_ascii y) (nat_of_ascii z));
  destruct (Nat.ltb_spec (nat_of_ascii z) (nat_of_ascii y));
  destruct (Nat.ltb_spec (nat_of_ascii x) (nat_of_ascii z));
  destruct (Nat.ltb_spec (nat_of_ascii z) (nat_of_ascii x));
  try lia; try discriminate; auto; eauto.
Qed.

Lemma str_lt_asym a b : str_lt a b = true -> str_lt b a = false.
Proof.
  intros H; destruct (str_lt b a) eqn:E; auto.
  rewrite <- (str_lt_irrefl a); symmetry; eapply str_lt_trans; eauto.
Qed.

Lemma skey_lt_irrefl k : skey_lt k k = false.
Proof. destruct k; simpl; auto using Z.ltb_irrefl, num_lt_irrefl, str_lt_irrefl. Qed.

Lemma skey_lt_trans a b c : skey_lt a b = true -> skey_lt b c = true -> skey_lt a c = true.
Proof.
  destruct a, b, c; simpl; try discriminate; eauto using num_lt_trans, str_lt_trans.
  rewrite !Z.ltb_lt; lia.
Qed.

Lemma dir_lt_irrefl dir k : dir_lt dir k k = false.
Proof. unfold dir_lt; destruct (is_asc dir); apply skey_lt_irrefl. Qed.

Lemma dir_lt_trans dir a b c :
  dir_lt dir a b = true -> dir_lt dir b c = true -> dir_lt dir a c = true.
Proof. unfold dir_lt; destruct (is_asc dir); eauto using skey_lt_trans. Qed.

Lemma date_sub_before a b :
  num_lt (num_sub (date_num a) (date_num b)) (Fin 0) =
  match a, b with Some u, Some v => Z.ltb u v | _, _ => false end.
Proof.
  destruct a as [u|], b as [v|]; simpl; auto.
  unfold Qltb, Qle_bool; simpl.
  destruct (Z.ltb_spec u v), (Z.leb_spec 0 ((u * 1 + - v * 1) * 1)); simpl; auto; lia.
Qed.

Lemma num_key_lt a b :
  num_lt (num_key a) (num_key b) =
  num_lt (if num_isnan a then NegInf else a) (if num_isnan b then NegInf else b).
Proof.
  destruct a, b; simpl; auto.
  apply Qltb_compat; apply Qred_correct.
Qed.

(** the comparator of [sortData] puts [x] before [y] exactly when the key
    of [x] is strictly below the key of [y] in the direction's order *)
Lemma sort_cmp_bef tza col dir x y :
  before (sort_cmp tza col dir) x y = bef (dir_lt dir) (col_key tza col) x y.
Proof.
  unfold before, sort_cmp, bef, col_key, dir_lt.
  destruct (String.eqb col "usage_date" || String.eqb col "usage_time").
  - fold (row_time tza x) (row_time tza y).
    destruct (is_asc dir); rewrite date_sub_before;
      destruct (row_time tza x), (row_time tza y); reflexivity.
  - destruct (String.eqb col "utilization_pct").
    + simpl; destruct (is_asc dir); rewrite num_key_lt;
      set (A := if num_isnan (to_number (row_get x col)) then NegInf else _);
      set (B := if num_isnan (to_number (row_get y col)) then NegInf else _);
      destruct (num_lt A B) eqn:E1, (num_lt B A) eqn:E2; simpl; auto;
        try (rewrite (num_lt_asym _ _ E1) in E2; discriminate).
    + simpl.
      set (A := to_lower _). set (B := to_lower _).
      destruct (is_asc dir); destruct (str_lt A B) eqn:E1, (str_lt B A) eqn:E2; simpl; auto;
        try (rewrite (str_lt_asym _ _ E1) in E2; discriminate).
Qed.

Lemma ForallOrdPairs_impl {A : Type} (P Q : A -> A -> Prop) l :
  (forall a b, P a b -> Q a b) -> ForallOrdPairs P l -> ForallOrdPairs Q l.
Proof.
  intros H; induction 1; constructor; auto.
  eapply Forall_impl; [|eassumption]; auto.
Qed.

Lemma sortData_ordered tza l col dir :
  ordered (dir_lt dir) (col_key tza col) (sortData tza l col dir).
Proof.
  exact (sort_ordered (dir_lt dir) (col_key tza col) (dir_lt_irrefl dir)
           (dir_lt_trans dir) (sort_cmp tza col dir) (sort_cmp_bef tza col dir) l).
Qed.

Lemma sortData_perm tza l col dir : Permutation (sortData tza l col dir) l.
Proof. exact (sort_perm (sort_cmp tza col dir) l). Qed.

Lemma sortData_sorted tza l col dir :
  ForallOrdPairs (keys_strict tza col) l ->
  Sorted (befP (dir_lt dir) (col_key tza col)) (sortData tza l col dir).
Proof.
  intros H; unfold sortData.
  apply (sort_sorted (dir_lt dir) (col_key tza col) (sort_cmp tza col dir) (sort_cmp_bef tza col dir)).
  eapply ForallOrdPairs_impl; [|exact H].
    unfold keys_strict, bef, dir_lt; intros a b.
    destruct (col_key tza col a), (col_key tza col b); try contradiction.
    destruct (is_asc dir); tauto.
Qed.

Lemma sortData_stable tza l col dir x :
  filter (fun r => key_eqb (col_key tza col r) (col_key tza col x)) (sortData tza l col dir) =
  filter (fun r => key_eqb (col_key tza col r) (col_key tza col x)) l.
Proof.
  unfold sortData.
  apply (filter_sort (dir_lt dir) (col_key tza col) (dir_lt_irrefl dir) (dir_lt_trans dir)
           (sort_cmp tza col dir) (sort_cmp_bef tza col dir)).
  intros a b; unfold key_eqb.
  destruct (okey_eq_dec (col_key tza col a) (col_key tza col x)) as [Ea|]; [|discriminate].
  destruct (okey_eq_dec (col_key tza col b) (col_key tza col x)) as [Eb|]; [|discriminate].
  congruence.
Qed.

Lemma befP_trans dir kf (x y z : row) :
  befP (dir_lt dir) kf x y -> befP (dir_lt dir) kf y z -> befP (dir_lt dir) kf x z.
Proof. unfold befP; apply bef_trans, dir_lt_trans. Qed.

Lemma befP_asym dir kf (x y : row) :
  befP (dir_lt dir) kf x y -> befP (dir_lt dir) kf y x -> False.
Proof.
  unfold befP; intros H1 H2.
  rewrite (bef_asym (dir_lt dir) kf (dir_lt_irrefl dir) (dir_lt_trans dir) x y H1) in H2.
  discriminate.
Qed.

Lemma StronglySorted_impl {A : Type} (R1 R2 : A -> A -> Prop) l :
  (forall a b, R1 a b -> R2 a b) -> StronglySorted R1 l -> StronglySorted R2 l.
Proof.
  intros H; induction 1; constructor; auto.
  eapply Forall_impl; [|eassumption]; auto.
Qed.


Lemma ForallOrdPairs_nth {A : Type} (R : A -> A -> Prop) l i j a b :
  ForallOrdPairs R l -> nth_error l i = Some a -> nth_error l j = Some b ->
  (i < j)%nat -> R a b.
Proof.
  intros H; revert i j; induction H as [|x l Hx H IH]; intros i j Ha Hb Hij.
  - destruct i; discriminate.
  - destruct j as [|j]; [lia|].
    destruct i as [|i]; simpl in *.
    + injection Ha as <-. rewrite Forall_forall in Hx; apply Hx.
      eapply nth_error_In; eauto.
    + apply (IH i j); auto; lia.
Qed.

Lemma ForallOrdPairs_impl_in {A : Type} (P Q : A -> A -> Prop) l :
  (forall a b, In a l -> In b l -> P a b -> Q a b) ->
  ForallOrdPairs P l -> ForallOrdPairs Q l.
Proof.
  intros H Hl; induction Hl as [|x l Hx Hl IH]; constructor.
  - rewrite Forall_forall in *; intros y Hy; apply H; simpl; auto.
  - apply IH; intros a b Ha Hb; apply H; simpl; auto.
Qed.


Lemma apply_try_renders tza api inp st st' :
  apply_try tza api inp st = Some st' ->
  exists sorted, tableBody st' = TRows sorted /\ chart st' = Some (renderChart sorted).
Proof.
  unfold apply_try.
  destruct (match api (systemSelect inp) (departmentSelect inp) with
            | FetchOk (JArr l) => normalize l | _ => None end); intros H; [|discriminate].
  injection H as <-; eexists; repeat split.
Qed.

Lemma sortData_date_chrono tza l col dir :
  is_asc dir = true -> (col = "usage_date" \/ col = "usage_time") ->
  (forall r, In r l -> row_time tza r <> None) ->
  chrono_asc tza (sortData tza l col dir).
Proof.
  intros Hasc Hcol Hv.
  pose proof (sortData_ordered tza l col dir) as Ho.
  eapply ForallOrdPairs_impl_in; [|exact Ho].
  intros a b Ha Hb H.
  apply (Permutation_in _ (sortData_perm tza l col dir)) in Ha, Hb.
  specialize (Hv a Ha) as Hva; specialize (Hv b Hb) as Hvb.
  assert (Hk : forall r, col_key tza col r = option_map SZ (row_time tza r)).
  { intros r; unfold col_key; destruct Hcol as [->| ->]; reflexivity. }
  unfold bef, dir_lt in H; rewrite Hasc, !Hk in H.
  destruct (row_time tza a) as [u|]; [|congruence].
  destruct (row_time tza b) as [v|]; [|congruence].
  simpl in H; apply Z.ltb_ge in H; exact H.
Qed.


(* ------------------------------------------------------------------ *)
(** ** Aggregation, rounding and normalisation *)

Lemma loop_sum l a :
  sum (fold_left loop_step l a) = fold_left num_add (nonnan_values l) (sum a).
Proof.
  revert a; induction l as [|r l IH]; intros a; [reflexivity|].
  cbn [fold_left]; rewrite IH; unfold loop_step, nonnan_values; cbn [map filter].
  destruct (num_isnan (to_number (utilization_pct r))); reflexivity.
Qed.

(** C3 (as amended): avg is the sum of the coerced utilization values that are
    not NaN (Infinity included) divided by the row count, rounded to 2
    decimals; Scenario B gives total 3, avg 13.33, max 30 and min 10 *)
Theorem computeCards_avg_over_total (data : list row) :
  avg (computeCards data) =
  round (if (0 <? length data)%nat
         then num_div (num_sum (nonnan_values data)) (Fin (inject_Z (Z.of_nat (length data))))
         else Fin 0) 2 /\
  (let s := computeCards rows_B in
   total s = 3%nat /\ num_eqb (avg s) (Fin (1333 # 100)) = true /\
   num_eqb (max s) (Fin 30) = true /\ num_eqb (min s) (Fin 10) = true).
Proof.
  split; [|vm_compute; repeat split].
  unfold computeCards; simpl.
  rewrite loop_sum; reflexivity.
Qed.

Lemma round2_eq q :
  round (Fin q) 2 = Fin (inject_Z (Qfloor (q * inject_Z 100 + (1 # 2))) / inject_Z 100).
Proof. reflexivity. Qed.

Lemma Qfloor_unique (x : Q) (k : Z) :
  inject_Z k <= x -> x < inject_Z (k + 1) -> Qfloor x = k.
Proof.
  intros H1 H2.
  pose proof (Qfloor_le x) as H3. pose proof (Qlt_floor x) as H4.
  assert (k <= Qfloor x)%Z.
  { rewrite <- (Qfloor_Z k). apply Qfloor_resp_le; auto. }
  assert (Qfloor x < k + 1)%Z.
  { rewrite Zlt_Qlt. eapply Qle_lt_trans; eauto. }
  lia.
Qed.

Lemma round2_vs_half_away q :
  Qeq_bool (inject_Z (Qfloor (q * inject_Z 100 + (1 # 2))) / inject_Z 100)
           (round_half_away q + (if negative_tie q then 1 # 100 else 0)) = true.
Proof.
  apply Qeq_bool_iff.
  unfold round_half_away, negative_tie.
  set (x := q * inject_Z 100 + (1 # 2)).
  set (k := Qfloor x).
  destruct (Qltb q 0) eqn:Hq; cbv beta iota zeta.
  - apply Qltb_iff in Hq.
    assert (Habs : Qabs q * inject_Z 100 + (1 # 2) == inject_Z 1 - x).
    { rewrite Qabs_neg by (apply Qlt_le_weak; auto). unfold x. ring. }
    rewrite (Qfloor_comp _ _ Habs).
    pose proof (Qfloor_le x) as H1. pose proof (Qlt_floor x) as H2. fold k in H1, H2.
    destruct (Qeq_bool (inject_Z k) x) eqn:Ht.
    + apply Qeq_bool_iff in Ht.
      assert (Hf : Qfloor (inject_Z 1 - x) = (1 - k)%Z).
      { apply Qfloor_unique; rewrite <- Ht, ?inject_Z_plus, ?inject_Z_opp;
        unfold Zminus; rewrite ?inject_Z_plus, ?inject_Z_opp.
        - apply Qle_refl.
        - rewrite Qlt_minus_iff. ring_simplify. reflexivity. }
      rewrite Hf. unfold Zminus. rewrite inject_Z_plus, inject_Z_opp.
      cbn [andb]. field.
    + assert (Hlt : inject_Z k < x).
      { apply Qle_lt_or_eq in H1 as [H1|H1]; auto.
        apply Qeq_bool_iff in H1; congruence. }
      assert (Hf : Qfloor (inject_Z 1 - x) = (- k)%Z).
      { apply Qfloor_unique.
        - rewrite inject_Z_opp. apply Qlt_le_weak.
          rewrite inject_Z_plus in H2.
          rewrite Qlt_minus_iff in H2 |- *.
          setoid_replace (inject_Z 1 - x + - - inject_Z k) with (inject_Z k + inject_Z 1 + - x) by ring.
          exact H2.
        - rewrite inject_Z_plus, inject_Z_opp.
          rewrite Qlt_minus_iff in Hlt |- *.
          setoid_replace (- inject_Z k + inject_Z 1 + - (inject_Z 1 - x)) with (x + - inject_Z k) by ring.
          exact Hlt. }
      rewrite Hf, inject_Z_opp. cbn [andb]. field.
  - assert (Hq' : 0 <= q).
    { destruct (Qlt_le_dec q 0) as [H|H]; auto.
      apply Qltb_iff in H; congruence. }
    assert (Habs : Qabs q * inject_Z 100 + (1 # 2) == x).
    { rewrite Qabs_pos by exact Hq'. reflexivity. }
    rewrite (Qfloor_comp _ _ Habs). fold k. cbn [andb]. ring.
Qed.


Lemma normalize_record_obj fs :
  normalize_record (JObj fs) =
  Some {| usage_date := js_or (get fs "usage_date") (JStr "");
          usage_time := js_or (get fs "usage_time") (JStr "");
          utilization_pct := match get fs "utilization_pct" with
                             | JUndef => js_or (get fs "utilization") (JNum (Fin 0))
                             | _ => get fs "utilization_pct"
                             end;
          system_name := js_or (get fs "system_name") (js_or (get fs "system") (JStr ""));
          department_name := js_or (get fs "department_name") (js_or (get fs "department") (JStr "")) |}.
Proof. reflexivity. Qed.

Lemma js_or_defined a b : b <> JUndef -> js_or a b <> JUndef.
Proof. unfold js_or; destruct a; simpl; try congruence; try (destruct b0; congruence); auto.
  - destruct n; try congruence; destruct (negb (Qeq_bool q 0)); congruence.
  - destruct (negb (String.eqb s "")); congruence.
Qed.

(** C8: the normaliser maps every sequence of records to rows of the same
    length, each missing field taking its documented default, none undefined *)
Theorem normalize_total_defaults (raw : list (list (string * jsval))) :
  exists rows, normalize (map JObj raw) = Some rows /\ length rows = length raw /\
  Forall2 (fun fs r =>
    (get fs "usage_date" = JUndef -> usage_date r = JStr "") /\
    (get fs "usage_time" = JUndef -> usage_time r = JStr "") /\
    (get fs "utilization_pct" = JUndef ->
       utilization_pct r = js_or (get fs "utilization") (JNum (Fin 0))) /\
    (get fs "utilization_pct" = JUndef -> get fs "utilization" = JUndef ->
       utilization_pct r = JNum (Fin 0)) /\
    (get fs "system_name" = JUndef -> system_name r = js_or (get fs "system") (JStr "")) /\
    (get fs "system_name" = JUndef -> get fs "system" = JUndef -> system_name r = JStr "") /\
    (get fs "department_name" = JUndef ->
       department_name r = js_or (get fs "department") (JStr "")) /\
    (get fs "department_name" = JUndef -> get fs "department" = JUndef ->
       department_name r = JStr "") /\
    usage_date r <> JUndef /\ usage_time r <> JUndef /\ utilization_pct r <> JUndef /\
    system_name r <> JUndef /\ department_name r <> JUndef) raw rows.
Proof.
  induction raw as [|fs raw IH].
  - exists []; repeat split; constructor.
  - destruct IH as [rows [Hn [Hl Hf]]].
    eexists; split; [cbn [map normalize]; rewrite normalize_record_obj, Hn; reflexivity|].
    split; [simpl; rewrite Hl; reflexivity|].
    constructor; [|exact Hf]; simpl.
    repeat split; intros; repeat match goal with H : _ = JUndef |- _ => rewrite H end;
      try reflexivity;
      try (apply js_or_defined; try apply js_or_defined; discriminate).
    destruct (get fs "utilization_pct"); try discriminate;
      apply js_or_defined; discriminate.
Qed.

(** C10: a falsy usage_date, usage_time, system_name or department_name is
    replaced by its fallback, while utilization_pct falls back only when it is
    undefined and is otherwise kept as it is *)
Theorem normalize_record_falsy_fields (fs : list (string * jsval)) :
  exists r, normalize_record (JObj fs) = Some r /\
    (truthy (get fs "usage_date") = false -> usage_date r = JStr "") /\
    (truthy (get fs "usage_time") = false -> usage_time r = JStr "") /\
    (truthy (get fs "system_name") = false ->
       system_name r = js_or (get fs "system") (JStr "")) /\
    (truthy (get fs "department_name") = false ->
       department_name r = js_or (get fs "department") (JStr "")) /\
    (get fs "utilization_pct" <> JUndef -> utilization_pct r = get fs "utilization_pct") /\
    (get fs "utilization_pct" = JUndef ->
       utilization_pct r = js_or (get fs "utilization") (JNum (Fin 0))).
Proof.
  eexists; split; [apply normalize_record_obj|]; simpl.
  repeat split; intros H; try (unfold js_or at 1; rewrite H; reflexivity).
  destruct (get fs "utilization_pct"); congruence.
Qed.

(** C5 (as amended): when the fetch fails or its body is not an array, the
    total, avg, max and min cards show a dash, the systems and departments
    cards keep their values, the table shows the failure row and the chart,
    the data and the sort are left as they were *)
Theorem apply_failure_blanks_four_cards (tza : Z) (api : string -> string -> fetch_result)
    (inp : inputs) (st : ui) :
  (api (systemSelect inp) (departmentSelect inp) = FetchError \/
   exists v, api (systemSelect inp) (departmentSelect inp) = FetchOk v /\ forall l, v <> JArr l) ->
  let st' := applyFiltersAndRender tza api inp st in
  cardTotal (ui_cards st') = CDash /\ cardAvg (ui_cards st') = CDash /\
  cardMax (ui_cards st') = CDash /\ cardMin (ui_cards st') = CDash /\
  cardSystems (ui_cards st') = cardSystems (ui_cards st) /\
  cardDepts (ui_cards st') = cardDepts (ui_cards st) /\
  tableBody st' = TFailed /\ chart st' = chart st /\
  currentData st' = currentData st /\ currentSort st' = currentSort st /\
  loading st' = false.
Proof.
  intros Hf.
  assert (Hn : apply_try tza api inp (set_loading true st) = None).
  { unfold apply_try; simpl.
    destruct Hf as [-> | [v [-> Hv]]]; auto.
    destruct v; auto. exfalso; eapply Hv; reflexivity. }
  unfold applyFiltersAndRender; rewrite Hn.
  repeat split; reflexivity.
Qed.




(** C2 (code bug): an unparsable date is an Invalid Date, not the epoch: it keeps its
    place in an ascending date sort and passes a lower bound *)
Theorem unparsable_date_not_epoch (tza : Z) :
  row_time tza row_garbage = None /\
  sortData tza [row_dp "2024-01-01" (JNum (Fin 0)); row_garbage] "usage_date" "asc" =
    [row_dp "2024-01-01" (JNum (Fin 0)); row_garbage] /\
  date_filter tza (from_bound tza "2024-01-02") None [row_garbage] = [row_garbage].
Proof. split; [|split]; vm_compute; reflexivity. Qed.

(** Counterexample to C3: an infinite utilization is summed, so the average is infinite *)
Lemma avg_sums_infinity :
  avg (computeCards rows_inf) = PosInf /\ num_eqb (spec_avg rows_inf) (Fin 5) = true.
Proof. split; vm_compute; reflexivity. Qed.

(** C4 (code bug): the filter keeps a row whose date does not parse, and a date-only
    row is read in UTC against bounds in local time *)
Theorem date_filter_keeps_unparsable (tza : Z) :
  row_time tza row_garbage = None /\
  date_filter tza (from_bound tza "2024-01-02") (to_bound tza "2024-01-02") [row_garbage] =
    [row_garbage] /\
  date_filter 0 (from_bound 0 "2024-01-02") (to_bound 0 "2024-01-02")
    [row_dp "2024-01-01" (JNum (Fin 0)); row_dp "2024-01-02" (JNum (Fin 0))] =
    [row_dp "2024-01-02" (JNum (Fin 0))] /\
  date_filter (-18000000) (from_bound (-18000000) "2024-01-02") (to_bound (-18000000) "2024-01-02")
    [row_dp "2024-01-01" (JNum (Fin 0)); row_dp "2024-01-02" (JNum (Fin 0))] = [].
Proof. repeat split; vm_compute; reflexivity. Qed.

(** Counterexample to C5: a failed apply leaves the systems and departments cards as they were *)
Lemma failure_keeps_systems_and_depts :
  cardSystems (ui_cards state_A_down) = CNum (Fin 1) /\
  cardDepts (ui_cards state_A_down) = CNum (Fin 1) /\
  cardSystems (ui_cards state_A_down) <> CDash.
Proof. split; [|split]; vm_compute; [reflexivity|reflexivity|discriminate]. Qed.

Lemma apply_failure_blanks_four_cards_witness :
  api_down "" "" = FetchError /\ tableBody state_A_down = TFailed /\
  cardSystems (ui_cards state_A_down) = cardSystems (ui_cards state_A).
Proof.
  pose proof (apply_failure_blanks_four_cards 0 api_down no_filters state_A
                (or_introl eq_refl)) as H.
  cbv zeta in H.
  destruct H as (_ & _ & _ & _ & Hs & _ & Ht & _).
  split; [reflexivity|split; assumption].
Defined.





(* ------------------------------------------------------------------ *)
(** ** HTML output *)

Definition html_specials : list ascii := ["<"%char; ">"%char; ascii_of_nat 34; "'"%char].

Lemma count_char_app c s1 s2 : count_char c (s1 ++ s2) = (count_char c s1 + count_char c s2)%nat.
Proof. induction s1 as [|d r IH]; simpl; [reflexivity|rewrite IH; lia]. Qed.

Lemma escape_char_special x c : In x html_specials -> count_char x (escape_char c) = O.
Proof.
  intros Hx; unfold escape_char.
  destruct (c =? "&")%char eqn:E1;
    [destruct Hx as [<-|[<-|[<-|[<-|[]]]]]; reflexivity|].
  destruct (c =? "<")%char eqn:E2;
    [destruct Hx as [<-|[<-|[<-|[<-|[]]]]]; reflexivity|].
  destruct (c =? ">")%char eqn:E3;
    [destruct Hx as [<-|[<-|[<-|[<-|[]]]]]; reflexivity|].
  destruct (c =? ascii_of_nat 34)%char eqn:E4;
    [destruct Hx as [<-|[<-|[<-|[<-|[]]]]]; reflexivity|].
  destruct (c =? "'")%char eqn:E5;
    [destruct Hx as [<-|[<-|[<-|[<-|[]]]]]; reflexivity|].
  simpl; destruct (c =? x)%char eqn:E; [|reflexivity].
  apply Ascii.eqb_eq in E; subst x.
  destruct Hx as [H|[H|[H|[H|[]]]]]; rewrite <- H in *; discriminate.
Qed.

Lemma escape_string_special x s : In x html_specials -> count_char x (escape_string s) = O.
Proof.
  intros Hx; induction s as [|c r IH]; [reflexivity|].
  simpl; rewrite count_char_app, escape_char_special, IH; auto.
Qed.

Lemma escapeHtml_special x v : In x html_specials -> count_char x (escapeHtml v) = O.
Proof. intros Hx; destruct v; try reflexivity; apply escape_string_special; auto. Qed.

Lemma html_unescape_escape_char c t :
  html_unescape (escape_char c ++ t) = String c (html_unescape t).
Proof.
  unfold escape_char.
  destruct (c =? "&")%char eqn:E1; [apply Ascii.eqb_eq in E1; subst; reflexivity|].
  destruct (c =? "<")%char eqn:E2; [apply Ascii.eqb_eq in E2; subst; reflexivity|].
  destruct (c =? ">")%char eqn:E3; [apply Ascii.eqb_eq in E3; subst; reflexivity|].
  destruct (c =? ascii_of_nat 34)%char eqn:E4; [apply Ascii.eqb_eq in E4; subst; reflexivity|].
  destruct (c =? "'")%char eqn:E5; [apply Ascii.eqb_eq in E5; subst; reflexivity|].
  simpl; rewrite E1; reflexivity.
Qed.

(** X: escapeHtml output carries no markup character *)
Theorem escapeHtml_no_markup_chars (v : jsval) :
  count_char "<" (escapeHtml v) = O /\ count_char ">" (escapeHtml v) = O /\
  count_char (ascii_of_nat 34) (escapeHtml v) = O /\ count_char "'" (escapeHtml v) = O.
Proof.
  repeat split; apply escapeHtml_special; unfold html_specials; simpl; tauto.
Qed.

(** X: decoding the character references gives back [String(v)] *)
Theorem escapeHtml_lossless (v : jsval) :
  html_unescape (escapeHtml v) = match v with JUndef | JNull => "" | _ => js_to_string v end.
Proof.
  assert (H : forall s, html_unescape (escape_string s) = s).
  { induction s as [|c r IH]; [reflexivity|].
    simpl; rewrite html_unescape_escape_char, IH; reflexivity. }
  destruct v; try reflexivity; apply H.
Qed.

Lemma count_char_concat c l :
  count_char c (String.concat "" l) = list_sum (map (count_char c) l).
Proof.
  induction l as [|s r IH]; [reflexivity|].
  destruct r as [|s' r']; simpl; [lia|].
  simpl in IH; rewrite count_char_app, IH; simpl; lia.
Qed.

Lemma list_sum_const {A : Type} (f : A -> nat) (l : list A) k :
  (forall x, f x = k) -> list_sum (map f l) = (k * length l)%nat.
Proof. intros H; induction l as [|x r IH]; simpl; [lia|rewrite H, IH; lia]. Qed.

Lemma table_row_html_tags c r :
  In c html_specials -> count_char c (table_row_html r) =
    (if (c =? "<")%char then 12 else if (c =? ">")%char then 12 else 0)%nat.
Proof.
  intros Hc; unfold table_row_html.
  rewrite !count_char_app, !(escapeHtml_special c) by exact Hc.
  destruct Hc as [<-|[<-|[<-|[<-|[]]]]]; reflexivity.
Qed.

(** X: the table body holds exactly the 12 tags of each row *)
Theorem renderTable_tag_count (data : list row) :
  count_char "<" (renderTable data) = (12 * length data)%nat /\
  count_char ">" (renderTable data) = (12 * length data)%nat /\
  count_char (ascii_of_nat 34) (renderTable data) = O.
Proof.
  unfold renderTable; rewrite !count_char_concat, !map_map.
  repeat split;
    [rewrite (list_sum_const _ _ 12) | rewrite (list_sum_const _ _ 12) | rewrite (list_sum_const _ _ 0)];
    try lia; intros r; rewrite table_row_html_tags by (unfold html_specials; simpl; tauto);
    reflexivity.
Qed.

Lemma option_html_count c v :
  In c html_specials -> count_char c (option_html v) =
    (if (c =? "<")%char then 2 else if (c =? ">")%char then 2
     else if (c =? ascii_of_nat 34)%char then 2 else 0)%nat.
Proof.
  intros Hc; unfold option_html.
  rewrite !count_char_app, !(escapeHtml_special c) by exact Hc.
  destruct Hc as [<-|[<-|[<-|[<-|[]]]]]; reflexivity.
Qed.

Lemma map_prop_ok l k :
  Forall (fun x => x <> JNull /\ x <> JUndef) l ->
  exists vs, map_prop l k = Some vs /\ length vs = length l.
Proof.
  induction 1 as [|x l [Hn Hu] _ [vs [Hvs Hl]]]; [exists []; auto|].
  simpl; rewrite Hvs.
  destruct x; try congruence; simpl; eexists; split; try reflexivity; simpl; congruence.
Qed.

Lemma options_count c vs :
  In c html_specials ->
  count_char c (String.concat "" (map option_html vs)) =
  (length vs * (if (c =? "<")%char then 2 else if (c =? ">")%char then 2
                else if (c =? ascii_of_nat 34)%char then 2 else 0))%nat.
Proof.
  intros Hc; rewrite count_char_concat, map_map.
  rewrite (list_sum_const _ _ (if (c =? "<")%char then 2 else if (c =? ">")%char then 2
                               else if (c =? ascii_of_nat 34)%char then 2 else 0)%nat); [lia|].
  intros v; apply option_html_count, Hc.
Qed.


Lemma map_prop_nullish l k : In JNull l \/ In JUndef l -> map_prop l k = None.
Proof.
  induction l as [|x r IH]; simpl; [intros [[]|[]]|].
  intros H; destruct x; try reflexivity;
    (rewrite IH; [reflexivity|]); destruct H as [[H|H]|[H|H]]; try discriminate; auto.
Qed.

(** X: a failure of either list leaves both selects with only the All option *)
Theorem loadFilters_failure_resets_both (sys dept : fetch_result) :
  let bad b := (forall l, b <> JArr l) \/ exists l, b = JArr l /\ (In JNull l \/ In JUndef l) in
  (sys = FetchError \/ dept = FetchError \/
   (exists b, sys = FetchOk b /\ bad b) \/ (exists b, dept = FetchOk b /\ bad b)) ->
  loadFilters sys dept = mkSelects all_systems_html all_depts_html.
Proof.
  intros bad H.
  assert (Hb : forall b k, bad b -> array_map_prop b k = None).
  { intros b k [Hn|[l [-> Hl]]]; [|apply map_prop_nullish; exact Hl].
    destruct b; try reflexivity; exfalso; eapply Hn; reflexivity. }
  unfold loadFilters.
  destruct H as [->|[->|[[b [-> Hbad]]|[b [-> Hbad]]]]].
  - reflexivity.
  - destruct sys; reflexivity.
  - rewrite Hb by exact Hbad; destruct dept; reflexivity.
  - destruct sys as [|sb]; [reflexivity|].
    destruct (array_map_prop sb "system_name"); [|reflexivity].
    rewrite Hb by exact Hbad; reflexivity.
Qed.

(* ------------------------------------------------------------------ *)
(** ** Sort indicators and the theme *)

Lemma find_map_keys (f : string * option string -> string * option string) tss h :
  (forall kv, fst (f kv) = fst kv) ->
  find (fun kv => String.eqb (fst kv) h) (map f tss) =
  option_map f (find (fun kv => String.eqb (fst kv) h) tss).
Proof.
  intros Hf; induction tss as [|kv r IH]; [reflexivity|].
  simpl; rewrite Hf; destruct (String.eqb (fst kv) h); auto.
Qed.

Lemma find_app' {A : Type} (f : A -> bool) l1 l2 :
  find f (l1 ++ l2) = match find f l1 with Some x => Some x | None => find f l2 end.
Proof. induction l1 as [|x r IH]; simpl; [reflexivity|destruct (f x); auto]. Qed.

Lemma sort_state_after_click tza col st h :
  sort_state_of (tableSortState (header_click tza col st)) h =
  if String.eqb h col then Some (snd (currentSort (header_click tza col st))) else None.
Proof.
  unfold sort_state_of, header_click; simpl.
  set (next := match match find _ (tableSortState st) with Some (_, p) => p | None => None end with
               | Some p => _ | None => _ end).
  set (reset := map (fun kv : string * option string => (fst kv, @None string)) (tableSortState st)).
  assert (Hreset : forall kv, In kv reset -> snd kv = None).
  { intros kv Hin; unfold reset in Hin; apply in_map_iff in Hin as [kv' [<- _]]; reflexivity. }
  destruct (existsb (fun kv => String.eqb (fst kv) col) reset) eqn:Ex.
  - rewrite find_map_keys by (intros [k v]; simpl; destruct (String.eqb k col) eqn:E;
                                [apply String.eqb_eq in E|]; auto).
    destruct (find (fun kv => String.eqb (fst kv) h) reset) as [[k v]|] eqn:Ef; simpl.
    + apply find_some in Ef as [Hin Hk]; simpl in Hk; apply String.eqb_eq in Hk; subst k.
      destruct (String.eqb h col) eqn:E; [reflexivity|].
      apply Hreset in Hin; exact Hin.
    + destruct (String.eqb h col) eqn:E; [|reflexivity].
      apply String.eqb_eq in E; subst h.
      apply existsb_exists in Ex as [kv [Hin Hk]].
      pose proof (find_none _ _ Ef kv Hin) as Hn; simpl in Hn; congruence.
  - rewrite find_app'.
    destruct (find (fun kv => String.eqb (fst kv) h) reset) as [[k v]|] eqn:Ef.
    + apply find_some in Ef as [Hin Hk]; simpl in Hk; apply String.eqb_eq in Hk; subst k.
      destruct (String.eqb h col) eqn:E.
      * apply String.eqb_eq in E; subst h.
        assert (Hx : existsb (fun kv => String.eqb (fst kv) col) reset = true)
          by (apply existsb_exists; exists (col, v); simpl; rewrite String.eqb_refl; auto).
        congruence.
      * apply Hreset in Hin; exact Hin.
    + simpl; rewrite String.eqb_sym; destruct (String.eqb h col); reflexivity.
Qed.


Lemma header_click_dir tza col st :
  snd (currentSort (header_click tza col st)) =
  match sort_state_of (tableSortState st) col with
  | Some p => if String.eqb p "asc" then "desc" else "asc"
  | None => "asc"
  end.
Proof.
  unfold header_click, sort_state_of; simpl.
  destruct (find _ (tableSortState st)) as [[k [p|]]|]; reflexivity.
Qed.

(** X: clicking a header toggles its direction; another header starts ascending *)
Theorem header_click_toggles (tza : Z) (col col' : string) (st : ui) :
  let st1 := header_click tza col st in
  (sort_state_of (tableSortState st) col <> Some "asc" -> snd (currentSort st1) = "asc") /\
  snd (currentSort (header_click tza col st1)) =
    (if String.eqb (snd (currentSort st1)) "asc" then "desc" else "asc") /\
  (col' <> col -> snd (currentSort (header_click tza col' st1)) = "asc").
Proof.
  cbv zeta; split; [|split].
  - intros H; rewrite header_click_dir.
    destruct (sort_state_of (tableSortState st) col) as [p|]; [|reflexivity].
    simpl; destruct (String.eqb p "asc") eqn:E; [apply String.eqb_eq in E; congruence|reflexivity].
  - rewrite header_click_dir, sort_state_after_click, String.eqb_refl; reflexivity.
  - intros Hne; rewrite header_click_dir, sort_state_after_click.
    apply String.eqb_neq in Hne; rewrite Hne; reflexivity.
Qed.

Lemma apply_keeps_sort_state tza api inp st :
  tableSortState (applyFiltersAndRender tza api inp st) = tableSortState st /\
  currentSort (applyFiltersAndRender tza api inp st) = currentSort st.
Proof.
  unfold applyFiltersAndRender, apply_try.
  destruct (match api _ _ with FetchOk (JArr l) => normalize l | _ => None end);
    split; reflexivity.
Qed.

(** X: applying filters never changes the sort state; no arrow shows before a click *)
Theorem apply_shows_no_arrow_before_click (tza : Z) (apis : list (string -> string -> fetch_result))
    (inps : list inputs) (cols headers : list string) :
  let st := fold_left (fun st p => applyFiltersAndRender tza (fst p) (snd p) st)
                      (combine apis inps) (init_ui cols) in
  currentSort st = ("usage_date", "desc") /\
  header_arrows headers (tableSortState st) = map (fun _ => None) headers.
Proof.
  cbv zeta.
  assert (H : forall l s, tableSortState (fold_left (fun st p => applyFiltersAndRender tza (fst p) (snd p) st) l s)
                          = tableSortState s /\
                          currentSort (fold_left (fun st p => applyFiltersAndRender tza (fst p) (snd p) st) l s)
                          = currentSort s).
  { induction l as [|p l IH]; intros s; [split; reflexivity|].
    simpl; destruct (IH (applyFiltersAndRender tza (fst p) (snd p) s)) as [H1 H2].
    destruct (apply_keeps_sort_state tza (fst p) (snd p) s) as [H3 H4].
    split; congruence. }
  destruct (H (combine apis inps) (init_ui cols)) as [H1 H2].
  split; [exact H2|].
  rewrite H1; unfold header_arrows; apply map_ext; intros h.
  unfold sort_state_of, init_ui; simpl.
  destruct (find _ (map _ cols)) as [[k v]|] eqn:Ef; [|reflexivity].
  apply find_some in Ef as [Hin _]; apply in_map_iff in Hin as [c [Hc _]].
  injection Hc as _ <-; reflexivity.
Qed.


(** X: after a toggle, reloading the page restores the same theme *)
Theorem theme_toggle_persists (st : theme_state) :
  initTheme (toggleTheme st) = toggleTheme st /\
  light (toggleTheme (toggleTheme st)) = light st /\
  icon (initTheme st) = (if light (initTheme st) then IconSun else IconMoon).
Proof.
  split; [|split].
  - unfold toggleTheme, initTheme; simpl; destruct (light st); reflexivity.
  - simpl; apply negb_involutive.
  - unfold initTheme; simpl; destruct (String.eqb _ "light"); reflexivity.
Qed.

(* ------------------------------------------------------------------ *)
(** ** Aggregation *)

Lemma num_nlt_trans a b c :
  num_isnan a = false -> num_isnan b = false -> num_isnan c = false ->
  num_lt a b = false -> num_lt b c = false -> num_lt a c = false.
Proof.
  destruct a, b, c; simpl; intros; try discriminate; try reflexivity.
  unfold Qltb in *; apply negb_false_iff in H2, H3; apply negb_false_iff.
  apply Qle_bool_iff in H2, H3; apply Qle_bool_iff; eapply Qle_trans; eauto.
Qed.

Section Extreme.
Variable R : num -> num -> bool.
Hypothesis R_irrefl : forall a, R a a = false.
Hypothesis R_trans : forall a b c, R a b = true -> R b c = true -> R a c = true.
Hypothesis R_ntrans : forall a b c,
  num_isnan a = false -> num_isnan b = false -> num_isnan c = false ->
  R a b = false -> R b c = false -> R a c = false.

Definition ext_step (m : option num) (v : num) : option num :=
  match m with None => Some v | Some m => if R m v then Some v else Some m end.

Lemma ext_fold vs init M :
  Forall (fun v => num_isnan v = false) vs ->
  (forall m0, init = Some m0 -> num_isnan m0 = false) ->
  fold_left ext_step vs init = Some M ->
  (init = Some M \/ In M vs) /\ Forall (fun v => R M v = false) vs /\
  (forall m0, init = Some m0 -> R M m0 = false).
Proof.
  revert init; induction vs as [|v r IH]; simpl; intros init Hvs Hinit H.
  - subst init; split; [auto|split; [constructor|]].
    intros m0 Hm; assert (m0 = M) by congruence; subst m0; apply R_irrefl.
  - inversion Hvs as [|? ? Hv Hr]; subst.
    assert (Hm1 : forall m0, ext_step init v = Some m0 -> num_isnan m0 = false).
    { unfold ext_step; destruct init as [m|]; [destruct (R m v)|]; intros m0 E;
        injection E as <-; auto. }
    destruct (IH _ Hr Hm1 H) as (Hin & Hall & Hle).
    assert (HM : num_isnan M = false).
    { destruct Hin as [Hin|Hin]; [apply Hm1 in Hin; exact Hin|].
      rewrite Forall_forall in Hr; auto. }
    destruct init as [m|]; simpl in *.
    + specialize (Hinit m eq_refl).
      destruct (R m v) eqn:Emv.
      * specialize (Hle v eq_refl).
        split; [destruct Hin as [E|E]; [injection E as ->; auto|auto]|].
        split; [constructor; auto|].
        intros m0 E; assert (m0 = m) by congruence; subst m0.
        destruct (R M m) eqn:E'; auto.
        rewrite (R_trans _ _ _ E' Emv) in Hle; discriminate.
      * specialize (Hle m eq_refl).
        split; [destruct Hin as [E|E]; [injection E as ->; auto|auto]|].
        split; [constructor; [eapply R_ntrans; eauto|auto]|].
        intros m0 E; assert (m0 = m) by congruence; subst m0; exact Hle.
    + specialize (Hle v eq_refl).
      split; [destruct Hin as [E|E]; [injection E as ->; auto|auto]|].
      split; [constructor; auto|]; intros; discriminate.
Qed.

Lemma ext_fold_none vs init : fold_left ext_step vs init = None -> init = None /\ vs = [].
Proof.
  revert init; induction vs as [|v r IH]; simpl; intros init H; [auto|].
  apply IH in H as [H _]; unfold ext_step in H; destruct init as [m|];
    [destruct (R m v)|]; discriminate.
Qed.
End Extreme.

Lemma loop_extremes l a :
  max_v (fold_left loop_step l a) = fold_left (ext_step num_lt) (nonnan_values l) (max_v a) /\
  min_v (fold_left loop_step l a) =
    fold_left (ext_step (fun m v => num_lt v m)) (nonnan_values l) (min_v a).
Proof.
  revert a; induction l as [|r l IH]; intros a; [split; reflexivity|].
  cbn [fold_left]; rewrite !(proj1 (IH _)), !(proj2 (IH _)).
  unfold loop_step, nonnan_values; cbn [map filter].
  destruct (num_isnan (to_number (utilization_pct r))); split; reflexivity.
Qed.

Lemma nonnan_values_ok l : Forall (fun v => num_isnan v = false) (nonnan_values l).
Proof.
  unfold nonnan_values; apply Forall_forall; intros v Hv.
  apply filter_In in Hv as [_ Hv]; apply negb_true_iff, Hv.
Qed.

(** X: max and min are the rounded largest and smallest non-NaN values *)
Theorem computeCards_max_min (data : list row) :
  let s := computeCards data in
  (nonnan_values data = [] -> max s = Fin 0 /\ min s = Fin 0) /\
  (nonnan_values data <> [] ->
   exists M m, In M (nonnan_values data) /\ In m (nonnan_values data) /\
     max s = round M 2 /\ min s = round m 2 /\
     Forall (fun v => num_lt M v = false /\ num_lt v m = false) (nonnan_values data)).
Proof.
  cbv zeta; unfold computeCards; cbn [max min].
  destruct (loop_extremes data acc0) as [Hmax Hmin]; rewrite Hmax, Hmin; simpl.
  pose proof (nonnan_values_ok data) as Hok.
  split.
  - intros ->; split; reflexivity.
  - intros Hne.
    assert (Hn : forall m0 : num, (None : option num) = Some m0 -> num_isnan m0 = false)
      by (intros; discriminate).
    destruct (fold_left (ext_step num_lt) (nonnan_values data) None) as [M|] eqn:EM;
      [|apply ext_fold_none in EM as [_ E]; contradiction].
    destruct (fold_left (ext_step (fun m v => num_lt v m)) (nonnan_values data) None) as [m|] eqn:Em;
      [|apply ext_fold_none in Em as [_ E]; contradiction].
    destruct (ext_fold num_lt num_lt_irrefl num_lt_trans
                (fun a b c Ha Hb Hc H1 H2 => num_nlt_trans a b c Ha Hb Hc H1 H2)
                _ _ _ Hok Hn EM) as ([E|HinM] & HallM & _);
      [discriminate|].
    destruct (ext_fold (fun m v => num_lt v m) (fun a => num_lt_irrefl a)
                (fun a b c H1 H2 => num_lt_trans c b a H2 H1)
                (fun a b c Ha Hb Hc H1 H2 => num_nlt_trans c b a Hc Hb Ha H2 H1)
                _ _ _ Hok Hn Em) as ([E|Hinm] & Hallm & _);
      [discriminate|].
    exists M, m; repeat split; auto.
    rewrite Forall_forall in *; intros v Hv; split; auto.
Qed.

Lemma names_set (names u : list string) (pick : row -> jsval) (l : list row) :
  map pick l = map JStr names ->
  fold_left (fun s r => set_add (pick r) s) l (map JStr u) =
  map JStr (fold_left (fun s x => if existsb (String.eqb x) s then s else s ++ [x]) names u).
Proof.
  revert names u; induction l as [|r l IH]; intros names u H.
  - destruct names; [reflexivity|discriminate].
  - destruct names as [|x xs]; [discriminate|].
    simpl in H; injection H as Hx Hl.
    simpl; rewrite <- (IH xs); [|exact Hl].
    f_equal; unfold set_add; rewrite Hx.
    replace (existsb (same_value_zero (JStr x)) (map JStr u)) with (existsb (String.eqb x) u)
      by (clear; induction u as [|y u IH]; simpl; [reflexivity|rewrite IH; reflexivity]).
    destruct (existsb (String.eqb x) u); [reflexivity|rewrite map_app; reflexivity].
Qed.

Lemma dedup_fold names u :
  NoDup u ->
  let res := fold_left (fun s x => if existsb (String.eqb x) s then s else s ++ [x]) names u in
  NoDup res /\ (forall x, In x res <-> In x u \/ In x names).
Proof.
  revert u; induction names as [|y ys IH]; intros u Hu; cbv zeta; simpl.
  - split; [exact Hu|intros x; tauto].
  - destruct (existsb (String.eqb y) u) eqn:E.
    + destruct (IH u Hu) as [H1 H2]; split; [exact H1|].
      intros x; rewrite H2.
      apply existsb_exists in E as [z [Hz Hyz]]; apply String.eqb_eq in Hyz; subst z.
      split; [tauto|intros [H|[<-|H]]; auto].
    + assert (Hu' : NoDup (u ++ [y])).
      { apply NoDup_app; auto; [constructor; [intros []|constructor]|].
        intros x Hx Hin; destruct Hin as [Hy|[]]; subst y.
        assert (existsb (String.eqb x) u = true)
          by (apply existsb_exists; exists x; rewrite String.eqb_refl; auto).
        congruence. }
      destruct (IH _ Hu') as [H1 H2]; split; [exact H1|].
      intros x; rewrite H2, in_app_iff; simpl; tauto.
Qed.

Lemma loop_sets l a :
  systemsSet (fold_left loop_step l a) = fold_left (fun s r => set_add (system_name r) s) l (systemsSet a) /\
  deptsSet (fold_left loop_step l a) = fold_left (fun s r => set_add (department_name r) s) l (deptsSet a).
Proof.
  revert a; induction l as [|r l IH]; intros a; [split; reflexivity|].
  cbn [fold_left]; rewrite !(proj1 (IH _)), !(proj2 (IH _)).
  unfold loop_step; destruct (negb _); split; reflexivity.
Qed.

Lemma distinct_count names :
  length (fold_left (fun s x => if existsb (String.eqb x) s then s else s ++ [x]) names []) =
  length (nodup string_dec names).
Proof.
  destruct (dedup_fold names [] (NoDup_nil _)) as [H1 H2].
  apply Nat.le_antisymm; apply NoDup_incl_length; auto using NoDup_nodup.
  - intros x Hx; apply nodup_In; apply H2 in Hx as [[]|Hx]; exact Hx.
  - intros x Hx; apply nodup_In in Hx; apply H2; auto.
Qed.

(** X: the systems and departments cards count distinct names *)
Theorem computeCards_distinct_names (data : list row) (sys deps : list string) :
  map system_name data = map JStr sys -> map department_name data = map JStr deps ->
  systems (computeCards data) = length (nodup string_dec sys) /\
  depts (computeCards data) = length (nodup string_dec deps).
Proof.
  intros Hs Hd; unfold computeCards; cbn [systems depts].
  destruct (loop_sets data acc0) as [E1 E2]; rewrite E1, E2.
  change (systemsSet acc0) with (map JStr []); change (deptsSet acc0) with (map JStr []).
  rewrite (names_set sys [] system_name data Hs), (names_set deps [] department_name data Hd).
  rewrite !length_map, !distinct_count; split; reflexivity.
Qed.

(* ------------------------------------------------------------------ *)
(** ** Date-range filter, sorting and the apply outcomes *)

Lemma filter_filter' {A : Type} (p q : A -> bool) l :
  filter p (filter q l) = filter (fun x => q x && p x) l.
Proof.
  induction l as [|x r IH]; simpl; [reflexivity|].
  rewrite <- IH; destruct (q x); simpl; [destruct (p x)|]; reflexivity.
Qed.

(** X: filtering by both bounds is filtering by the upper and then the lower bound *)
Theorem date_filter_bounds_compose (tza : Z) (f t : option date) (l : list row) :
  date_filter tza f t l = date_filter tza f None (date_filter tza None t l).
Proof.
  unfold date_filter; rewrite filter_filter'; apply filter_ext; intros r.
  unfold in_range; destruct (negb (truthy (usage_date r))); [reflexivity|].
  destruct f as [a|], t as [b|]; simpl; try reflexivity;
    repeat match goal with |- context [if ?c then _ else _] => destruct c end; reflexivity.
Qed.

Lemma num_lt_nan_r a : num_lt a NaN = false.
Proof. destruct a; reflexivity. Qed.

(** X: a date bound that parses to an Invalid Date imposes no constraint *)
Theorem date_filter_unparsable_bound (tza : Z) (vf vt : string) (l : list row) :
  from_bound tza vf = Some None -> to_bound tza vt = Some None ->
  (forall t, date_filter tza (from_bound tza vf) t l = date_filter tza None t l) /\
  (forall f, date_filter tza f (to_bound tza vt) l = date_filter tza f None l).
Proof.
  intros Hf Ht; rewrite Hf, Ht; split; intros b; unfold date_filter; apply filter_ext; intros r;
    unfold in_range; destruct (negb (truthy (usage_date r))); try reflexivity;
    destruct b as [b|]; simpl; rewrite ?num_lt_nan_r; reflexivity.
Qed.


Lemma insert_at_end {A : Type} (cmp : A -> A -> num) x acc :
  (forall y, In y acc -> before cmp x y = false) -> insert cmp x acc = acc ++ [x].
Proof.
  induction acc as [|y r IH]; simpl; intros H; [reflexivity|].
  rewrite H by auto; f_equal; apply IH; auto.
Qed.

Lemma ForallOrdPairs_app_last {A : Type} (R : A -> A -> Prop) acc x r :
  ForallOrdPairs R (acc ++ x :: r) -> forall y, In y acc -> R y x.
Proof.
  induction acc as [|a acc IH]; simpl; intros H y Hy; [destruct Hy|].
  inversion H as [|? ? Ha Hr]; subst.
  destruct Hy as [<-|Hy]; auto.
  rewrite Forall_forall in Ha; apply Ha, in_or_app; simpl; auto.
Qed.

Lemma fold_insert_ordered tza col dir l acc :
  ordered (dir_lt dir) (col_key tza col) (acc ++ l) ->
  fold_left (fun acc x => insert (sort_cmp tza col dir) x acc) l acc = acc ++ l.
Proof.
  revert acc; induction l as [|x r IH]; intros acc H; simpl; [rewrite app_nil_r; reflexivity|].
  rewrite insert_at_end.
  - rewrite IH; [rewrite <- app_assoc; reflexivity|].
    rewrite <- app_assoc; exact H.
  - intros y Hy; rewrite sort_cmp_bef.
    exact (ForallOrdPairs_app_last _ _ _ _ H y Hy).
Qed.

Lemma sortData_ordered_id tza col dir l :
  ordered (dir_lt dir) (col_key tza col) l -> sortData tza l col dir = l.
Proof. intros H; exact (fold_insert_ordered tza col dir l [] H). Qed.


Lemma normalize_nullish l : In JNull l \/ In JUndef l -> normalize l = None.
Proof.
  induction l as [|x r IH]; simpl; [intros [[]|[]]|].
  intros H; destruct x; try reflexivity;
    (destruct (normalize_record _) as [nr|]; [|reflexivity]);
    (rewrite IH; [reflexivity|]); destruct H as [[H|H]|[H|H]]; try discriminate; auto.
Qed.

(** X: one null or undefined record makes the whole apply fail *)
Theorem apply_nullish_record_fails (tza : Z) (api : string -> string -> fetch_result)
    (inp : inputs) (st : ui) (l : list jsval) :
  api (systemSelect inp) (departmentSelect inp) = FetchOk (JArr l) ->
  In JNull l \/ In JUndef l ->
  let st' := applyFiltersAndRender tza api inp st in
  tableBody st' = TFailed /\ cardTotal (ui_cards st') = CDash /\
  currentData st' = currentData st /\ chart st' = chart st.
Proof.
  intros Hapi Hn; cbv zeta.
  unfold applyFiltersAndRender, apply_try; simpl; rewrite Hapi, normalize_nullish by exact Hn.
  repeat split.
Qed.

(** X: an empty array is a success: empty table, numeric cards at zero *)
Theorem apply_empty_array_zero_cards (tza : Z) (api : string -> string -> fetch_result)
    (inp : inputs) (st : ui) :
  api (systemSelect inp) (departmentSelect inp) = FetchOk (JArr []) ->
  let st' := applyFiltersAndRender tza api inp st in
  tableBody st' = TRows [] /\ currentData st' = [] /\ chart st' = Some (renderChart []) /\
  ui_cards st' = updateCards (computeCards []) /\
  total (computeCards []) = O /\ num_eqb (avg (computeCards [])) (Fin 0) = true /\
  max (computeCards []) = Fin 0 /\ min (computeCards []) = Fin 0 /\
  systems (computeCards []) = O /\ depts (computeCards []) = O.
Proof.
  intros Hapi; cbv zeta.
  unfold applyFiltersAndRender, apply_try; simpl; rewrite Hapi; simpl.
  repeat split.
Qed.


(* ---- fetchUtilization *)

Lemma replace_plus_app a b : replace_plus (a ++ b) = (replace_plus a ++ replace_plus b)%string.
Proof. induction a as [|c r IH]; simpl; [reflexivity|now rewrite IH]. Qed.

Lemma decode_form_byte c t :
  percent_decode (replace_plus (form_byte c ++ t)) = String c (percent_decode (replace_plus t)).
Proof.
  destruct c as [b0 b1 b2 b3 b4 b5 b6 b7];
    destruct b0, b1, b2, b3, b4, b5, b6, b7; reflexivity.
Qed.

Lemma decode_form_encode s : percent_decode (replace_plus (form_encode s)) = s.
Proof. induction s as [|c r IH]; simpl; [reflexivity|now rewrite decode_form_byte, IH]. Qed.

Lemma form_byte_no_sep c :
  count_char "&" (form_byte c) = O /\ count_char "=" (form_byte c) = O.
Proof.
  destruct c as [b0 b1 b2 b3 b4 b5 b6 b7];
    destruct b0, b1, b2, b3, b4, b5, b6, b7; split; reflexivity.
Qed.

Lemma form_encode_no_sep s :
  count_char "&" (form_encode s) = O /\ count_char "=" (form_encode s) = O.
Proof.
  induction s as [|c r [IH1 IH2]]; [split; reflexivity|].
  simpl; rewrite !count_char_app, IH1, IH2.
  destruct (form_byte_no_sep c) as [-> ->]; split; reflexivity.
Qed.

Lemma split_on_nosep sep a : count_char sep a = O -> split_on sep a = [a].
Proof.
  induction a as [|c r IH]; simpl; [reflexivity|].
  destruct (c =? sep)%char; [discriminate|].
  simpl; intros H; now rewrite (IH H).
Qed.

Lemma split_on_app sep a b :
  count_char sep a = O -> split_on sep (a ++ String sep b) = a :: split_on sep b.
Proof.
  induction a as [|c r IH]; simpl.
  - intros _; now rewrite Ascii.eqb_refl.
  - destruct (c =? sep)%char; [discriminate|].
    simpl; intros H; now rewrite (IH H).
Qed.

Lemma split_on_concat sep ps :
  ps <> [] -> Forall (fun p => count_char sep p = O) ps ->
  split_on sep (String.concat (String sep "") ps) = ps.
Proof.
  induction ps as [|x [|y ys] IH]; intros Hne Hf; [congruence| |].
  - inversion Hf; subst; simpl; now apply split_on_nosep.
  - inversion Hf; subst.
    change (String.concat (String sep "") (x :: y :: ys))
      with (x ++ String sep (String.concat (String sep "") (y :: ys)))%string.
    rewrite split_on_app by assumption.
    rewrite IH by (congruence || assumption); reflexivity.
Qed.

Lemma break_eq_app a b : count_char "=" a = O -> break_eq (a ++ String "=" b) = (a, b).
Proof.
  induction a as [|c r IH]; simpl; [reflexivity|].
  destruct (c =? "=")%char; [discriminate|].
  simpl; intros H; now rewrite (IH H).
Qed.

(** [URLSearchParams] round trip: parsing a serialized parameter list gives the list back *)
Lemma form_parse_serialize ps : form_parse (serialize_params ps) = ps.
Proof.
  destruct ps as [|p0 ps0]; [reflexivity|].
  set (piece := fun p : string * string =>
                  (form_encode (fst p) ++ "=" ++ form_encode (snd p))%string).
  unfold form_parse, serialize_params; fold piece.
  rewrite split_on_concat.
  - induction (p0 :: ps0) as [|[n v] r IH]; [reflexivity|].
    simpl filter.
    assert (Hne : String.eqb (piece (n, v)) "" = false).
    { unfold piece; simpl; destruct (form_encode n); reflexivity. }
    rewrite Hne; simpl map; rewrite IH.
    unfold piece; simpl fst; simpl snd.
    change ("=" ++ form_encode v)%string with (String "=" (form_encode v)).
    rewrite break_eq_app by apply form_encode_no_sep.
    now rewrite !decode_form_encode.
  - discriminate.
  - apply Forall_forall; intros x Hx; apply in_map_iff in Hx as [[n v] [<- _]].
    unfold piece; simpl; rewrite count_char_app; simpl.
    destruct (form_encode_no_sep n) as [-> _]; destruct (form_encode_no_sep v) as [-> _].
    reflexivity.
Qed.

(** X: the request [fetchUtilization(system, department)] sends goes to the
    filter endpoint (with the double slash of its template), and its query
    parses back to exactly the non-empty selections, system first *)
Theorem fetchUtilization_query_roundtrip system department :
  exists q,
    fetchUtilization_url system department =
      ("https://drm.pythonanywhere.com//utilization/filter?" ++ q)%string /\
    form_parse q =
      (if String.eqb system "" then [] else [("system", system)]) ++
      (if String.eqb department "" then [] else [("department", department)]).
Proof.
  exists (serialize_params (utilization_params system department)); split.
  - reflexivity.
  - apply form_parse_serialize.
Qed.
Lemma civil_bounds z0 : let '(y, m, d) := civil_from_days z0 in
  days_from_civil y m d = z0 /\ (1 <= m <= 12)%Z /\ (1 <= d <= 31)%Z.
Proof.
  unfold civil_from_days, days_from_civil.
  set (z := (z0 + 719468)%Z).
  set (era := (z / 146097)%Z).
  set (doe := (z - era * 146097)%Z).
  assert (Hdoe : (0 <= doe < 146097)%Z) by (unfold doe, era; pose proof (Z.mod_pos_bound z 146097); rewrite Z.mod_eq in *; lia).
  set (yoe := ((doe - doe / 1460 + doe / 36524 - doe / 146096) / 365)%Z).
  assert (Hyoe : (0 <= yoe <= 399)%Z) by (unfold yoe; Z.div_mod_to_equations; lia).
  set (doy := (doe - (365 * yoe + yoe / 4 - yoe / 100))%Z).
  assert (Hdoy : (0 <= doy <= 365)%Z) by (unfold doy, yoe; Z.div_mod_to_equations; lia).
  set (mp := ((5 * doy + 2) / 153)%Z).
  assert (Hmp : (0 <= mp <= 11)%Z) by (unfold mp; Z.div_mod_to_equations; lia).
  assert (Hd : (1 <= doy - (153 * mp + 2) / 5 + 1 <= 31)%Z)
    by (unfold mp; Z.div_mod_to_equations; lia).
  assert (Hera : ((yoe + era * 400) / 400 = era)%Z)
    by (rewrite Z.div_add by lia; rewrite Z.div_small by lia; lia).
  destruct (Z.ltb_spec mp 10) as [Hlt|Hge].
  - rewrite (proj2 (Z.leb_gt (mp + 3) 2)) by lia.
    rewrite (proj2 (Z.ltb_lt 2 (mp + 3))) by lia.
    replace (mp + 3 - 3)%Z with mp by lia.
    rewrite Hera; replace (yoe + era * 400 - era * 400)%Z with yoe by lia.
    split; [|lia]. unfold doy in *; unfold doe in *; lia.
  - rewrite (proj2 (Z.leb_le (mp - 9) 2)) by lia.
    rewrite (proj2 (Z.ltb_ge 2 (mp - 9))) by lia.
    replace (mp - 9 + 9)%Z with mp by lia.
    replace (yoe + era * 400 + 1 - 1)%Z with (yoe + era * 400)%Z by lia.
    rewrite Hera; replace (yoe + era * 400 - era * 400)%Z with yoe by lia.
    split; [|lia]. unfold doy in *; unfold doe in *; lia.
Qed.

Lemma chars_app a b : chars (a ++ b) = (chars a ++ chars b)%list.
Proof. induction a as [|c r IH]; simpl; [reflexivity|unfold chars in *; simpl; now rewrite IH]. Qed.

Lemma take_n_digits_app k acc l1 l2 v :
  take_n_digits k acc l1 = Some (v, []) -> take_n_digits k acc (l1 ++ l2)%list = Some (v, l2).
Proof.
  revert acc l1; induction k as [|k IH]; intros acc l1 H; simpl in *.
  - injection H as H1 H2; now subst.
  - destruct l1 as [|c r]; [discriminate|]; simpl.
    destruct (digit_val 10 c); [now apply IH|discriminate].
Qed.

Lemma Z_range_check (P : Z -> bool) (lo : Z) (n : nat) :
  forallb (fun k => P (lo + Z.of_nat k)%Z) (seq 0 n) = true ->
  forall z, (lo <= z < lo + Z.of_nat n)%Z -> P z = true.
Proof.
  intros H z Hz; rewrite forallb_forall in H.
  specialize (H (Z.to_nat (z - lo))).
  rewrite Z2Nat.id in H by lia; replace (lo + (z - lo))%Z with z in H by lia.
  apply H, in_seq; lia.
Qed.

Definition digits_back (k : nat) (s : string) (v : Z) : bool :=
  match take_n_digits k 0 (chars s) with Some (w, []) => Z.eqb w v | _ => false end.

Lemma digits_back_ok k s v : digits_back k s v = true -> take_n_digits k 0 (chars s) = Some (v, []).
Proof.
  unfold digits_back; destruct (take_n_digits k 0 (chars s)) as [[w [|c r]]|]; try discriminate.
  intros E; apply Z.eqb_eq in E; now subst.
Qed.

Lemma year_digits y : (1000 <= y <= 9999)%Z ->
  take_n_digits 4 0 (chars (num_to_string (Fin (inject_Z y)))) = Some (y, []).
Proof.
  intros Hy; apply digits_back_ok.
  apply (Z_range_check (fun y => digits_back 4 (num_to_string (Fin (inject_Z y))) y) 1000 (Z.to_nat 9000));
    [vm_compute; reflexivity|lia].
Qed.

Lemma pad_digits n : (1 <= n <= 31)%Z ->
  take_n_digits 2 0 (chars (pad (Fin (inject_Z n)))) = Some (n, []).
Proof.
  intros Hn; apply digits_back_ok.
  apply (Z_range_check (fun n => digits_back 2 (pad (Fin (inject_Z n))) n) 1 31);
    [vm_compute; reflexivity|lia].
Qed.

Lemma digit_val_10 c v :
  In (c, v) [("0"%char, 0%Z); ("2"%char, 2%Z); ("3"%char, 3%Z); ("5"%char, 5%Z); ("9"%char, 9%Z)] ->
  digit_val 10 c = Some v.
Proof. intros H; repeat destruct H as [H|H]; try injection H as <- <-; easy. Qed.

Ltac iso_prefix y m d Hy Hm Hd :=
  unfold parse_date_string;
  rewrite !chars_app, <- !app_assoc;
  rewrite (take_n_digits_app _ _ _ _ _ (year_digits y Hy));
  cbn [chars list_ascii_of_string app opt_component];
  rewrite (take_n_digits_app _ _ _ _ _ (pad_digits m ltac:(lia)));
  cbn [chars list_ascii_of_string app opt_component];
  rewrite (take_n_digits_app _ _ _ _ _ (pad_digits d Hd));
  rewrite (proj2 (Z.leb_le 1 m)), (proj2 (Z.leb_le m 12)), (proj2 (Z.leb_le 1 d)),
    (proj2 (Z.leb_le d 31)) by lia;
  repeat progress (cbn -[days_from_civil digit_val];
    rewrite ?(digit_val_10 "0"%char 0%Z), ?(digit_val_10 "2"%char 2%Z), ?(digit_val_10 "3"%char 3%Z),
      ?(digit_val_10 "5"%char 5%Z), ?(digit_val_10 "9"%char 9%Z) by (simpl; tauto));
  unfold msPerDay; f_equal; lia.

(** the ISO date [toISODate] writes, followed by [T00:00:00], parses as
    local midnight of that date *)
Lemma parse_iso_start tza y m d :
  (1000 <= y <= 9999)%Z -> (1 <= m <= 12)%Z -> (1 <= d <= 31)%Z ->
  parse_date_string tza ((num_to_string (Fin (inject_Z y)) ++ "-" ++ pad (Fin (inject_Z m)) ++ "-" ++
     pad (Fin (inject_Z d))) ++ "T00:00:00")%string =
  Some (days_from_civil y m d * msPerDay - tza)%Z.
Proof. intros Hy Hm Hd; iso_prefix y m d Hy Hm Hd. Qed.

(** and followed by [T23:59:59], as local 23:59:59 of that date *)
Lemma parse_iso_end tza y m d :
  (1000 <= y <= 9999)%Z -> (1 <= m <= 12)%Z -> (1 <= d <= 31)%Z ->
  parse_date_string tza ((num_to_string (Fin (inject_Z y)) ++ "-" ++ pad (Fin (inject_Z m)) ++ "-" ++
     pad (Fin (inject_Z d))) ++ "T23:59:59")%string =
  Some (days_from_civil y m d * msPerDay + 86399000 - tza)%Z.
Proof. intros Hy Hm Hd; iso_prefix y m d Hy Hm Hd. Qed.

Lemma Qltb_inject a b : Qltb (inject_Z a) (inject_Z b) = (a <? b)%Z.
Proof.
  unfold Qltb, Qle_bool; simpl; rewrite !Z.mul_1_r.
  destruct (Z.ltb_spec a b), (Z.leb_spec b a); reflexivity || lia.
Qed.

Lemma time_clip_inject t : (Z.abs t <= 8640000000000000)%Z -> time_clip (Fin (inject_Z t)) = Some t.
Proof.
  intros H; unfold time_clip, Qle_bool; simpl; rewrite !Z.mul_1_r.
  rewrite (proj2 (Z.leb_le _ _) H).
  destruct (Z.leb_spec 0 t).
  - unfold Qfloor; simpl; now rewrite Z.div_1_r.
  - unfold Qceiling, Qfloor; simpl; rewrite Z.div_1_r; f_equal; lia.
Qed.

Lemma fold_min_spec ts t0 :
  In (fold_left Z.min ts t0) (t0 :: ts) /\ Forall (fun x => fold_left Z.min ts t0 <= x)%Z (t0 :: ts).
Proof.
  revert t0; induction ts as [|t1 ts IH]; intros t0; simpl.
  - split; [now left|constructor; [lia|constructor]].
  - destruct (IH (Z.min t0 t1)) as [Hin Hall]; split.
    + destruct Hin as [E|Hin]; [|now right; right].
      rewrite <- E; destruct (Z.min_spec t0 t1) as [[_ ->]|[_ ->]]; [now left|now right; left].
    + inversion Hall as [|? ? Hm Hr]; subst.
      constructor; [lia|constructor; [lia|exact Hr]].
Qed.

Lemma fold_max_spec ts t0 :
  In (fold_left Z.max ts t0) (t0 :: ts) /\ Forall (fun x => x <= fold_left Z.max ts t0)%Z (t0 :: ts).
Proof.
  revert t0; induction ts as [|t1 ts IH]; intros t0; simpl.
  - split; [now left|constructor; [lia|constructor]].
  - destruct (IH (Z.max t0 t1)) as [Hin Hall]; split.
    + destruct Hin as [E|Hin]; [|now right; right].
      rewrite <- E; destruct (Z.max_spec t0 t1) as [[_ ->]|[_ ->]]; [now right; left|now left].
    + inversion Hall as [|? ? Hm Hr]; subst.
      constructor; [lia|constructor; [lia|exact Hr]].
Qed.

(** a time value whose local year has four digits is a valid time value
    and [toISODate] of it reads back, through the parser the date inputs
    go through, as local midnight and local 23:59:59 of its day *)
Lemma toISODate_bounds tza t :
  (Z.abs tza <= msPerDay)%Z -> (1000 <= local_year tza t <= 9999)%Z ->
  time_clip (Fin (inject_Z t)) = Some t /\
  String.eqb (toISODate tza (Some t)) "" = false /\
  parse_date_string tza (toISODate tza (Some t) ++ "T00:00:00") =
    Some (((t + tza) / msPerDay) * msPerDay - tza)%Z /\
  parse_date_string tza (toISODate tza (Some t) ++ "T23:59:59") =
    Some (((t + tza) / msPerDay) * msPerDay + 86399000 - tza)%Z.
Proof.
  intros Htza Hy; unfold local_year, toISODate in *.
  pose proof (civil_bounds ((t + tza) / msPerDay)) as Hc.
  unfold local_ymd in *.
  destruct (civil_from_days ((t + tza) / msPerDay)) as [[y m] d]; simpl in Hy.
  destruct Hc as [HD [Hm Hd]].
  split; [|split; [|split]].
  - apply time_clip_inject.
    assert (Hb : (-400000 <= (t + tza) / msPerDay <= 3000000)%Z).
    { rewrite <- HD; unfold days_from_civil.
      destruct (Z.leb_spec m 2), (Z.ltb_spec 2 m); Z.div_mod_to_equations; lia. }
    unfold msPerDay in *; Z.div_mod_to_equations; lia.
  - destruct (num_to_string (Fin (inject_Z y))); reflexivity.
  - rewrite parse_iso_start, HD by lia; reflexivity.
  - rewrite parse_iso_end, HD by lia; reflexivity.
Qed.

Lemma valid_times_in tza data r t :
  In r data -> parseDateStr tza (usage_date r) (usage_time r) = Some (Some t) ->
  In t (valid_times tza data).
Proof.
  intros Hr Hp; unfold valid_times; apply in_flat_map; exists r; split; [exact Hr|].
  rewrite Hp; now left.
Qed.

Lemma parseDateStr_truthy tza dv tv d :
  parseDateStr tza dv tv = Some d -> truthy dv = true.
Proof. unfold parseDateStr; destruct (truthy dv); [reflexivity|discriminate]. Qed.


(* ---- witnesses of the properties with hypotheses *)


Lemma loadFilters_failure_resets_both_witness :
  loadFilters FetchError (FetchOk (JArr [JStr "HR"])) = mkSelects all_systems_html all_depts_html.
Proof.
  apply (loadFilters_failure_resets_both FetchError (FetchOk (JArr [JStr "HR"]))).
  left; reflexivity.
Defined.

Lemma header_click_toggles_witness :
  sort_state_of (tableSortState state_A) "usage_date" <> Some "asc" /\
  "system_name" <> "usage_date" /\
  snd (currentSort (header_click 0 "usage_date" state_A)) = "asc" /\
  snd (currentSort (header_click 0 "system_name" (header_click 0 "usage_date" state_A))) = "asc".
Proof.
  assert (h1 : sort_state_of (tableSortState state_A) "usage_date" <> Some "asc")
    by (vm_compute; discriminate).
  assert (h2 : "system_name" <> "usage_date") by discriminate.
  destruct (header_click_toggles 0 "usage_date" "system_name" state_A) as [t1 [_ t3]].
  exact (conj h1 (conj h2 (conj (t1 h1) (t3 h2)))).
Defined.

Lemma computeCards_max_min_witness :
  nonnan_values rows_B <> [] /\
  exists M m, In M (nonnan_values rows_B) /\ In m (nonnan_values rows_B) /\
    max (computeCards rows_B) = round M 2 /\ min (computeCards rows_B) = round m 2 /\
    Forall (fun v => num_lt M v = false /\ num_lt v m = false) (nonnan_values rows_B).
Proof.
  assert (h : nonnan_values rows_B <> []) by (vm_compute; discriminate).
  exact (conj h (proj2 (computeCards_max_min rows_B) h)).
Defined.

Lemma computeCards_distinct_names_witness :
  let data := [mkRow (JStr "2024-01-01") (JStr "") (JNum (Fin 1)) (JStr "S1") (JStr "HR");
               mkRow (JStr "2024-01-01") (JStr "") (JNum (Fin 2)) (JStr "S2") (JStr "HR");
               mkRow (JStr "2024-01-02") (JStr "") (JNum (Fin 3)) (JStr "S1") (JStr "IT")] in
  map system_name data = map JStr ["S1"; "S2"; "S1"] /\
  map department_name data = map JStr ["HR"; "HR"; "IT"] /\
  systems (computeCards data) = length (nodup string_dec ["S1"; "S2"; "S1"]) /\
  depts (computeCards data) = length (nodup string_dec ["HR"; "HR"; "IT"]).
Proof.
  intros data.
  assert (h1 : map system_name data = map JStr ["S1"; "S2"; "S1"]) by reflexivity.
  assert (h2 : map department_name data = map JStr ["HR"; "HR"; "IT"]) by reflexivity.
  exact (conj h1 (conj h2 (computeCards_distinct_names data _ _ h1 h2))).
Defined.

Lemma date_filter_unparsable_bound_witness :
  from_bound 0 "2024-13-01" = Some None /\ to_bound 0 "2024-13-01" = Some None /\
  (forall t, date_filter 0 (from_bound 0 "2024-13-01") t rows_B = date_filter 0 None t rows_B) /\
  (forall f, date_filter 0 f (to_bound 0 "2024-13-01") rows_B = date_filter 0 f None rows_B).
Proof.
  assert (h1 : from_bound 0 "2024-13-01" = Some None) by (vm_compute; reflexivity).
  assert (h2 : to_bound 0 "2024-13-01" = Some None) by (vm_compute; reflexivity).
  exact (conj h1 (conj h2 (date_filter_unparsable_bound 0 "2024-13-01" "2024-13-01" rows_B h1 h2))).
Defined.

Lemma apply_nullish_record_fails_witness :
  api_rows [raw_rec "2024-01-01" (JNum (Fin 1)); JNull] "" "" =
    FetchOk (JArr [raw_rec "2024-01-01" (JNum (Fin 1)); JNull]) /\
  (let st' := applyFiltersAndRender 0 (api_rows [raw_rec "2024-01-01" (JNum (Fin 1)); JNull])
                                    no_filters state_A in
   tableBody st' = TFailed /\ cardTotal (ui_cards st') = CDash /\
   currentData st' = currentData state_A /\ chart st' = chart state_A).
Proof.
  assert (h1 : api_rows [raw_rec "2024-01-01" (JNum (Fin 1)); JNull] "" "" =
               FetchOk (JArr [raw_rec "2024-01-01" (JNum (Fin 1)); JNull])) by reflexivity.
  assert (h2 : In JNull [raw_rec "2024-01-01" (JNum (Fin 1)); JNull] \/
               In JUndef [raw_rec "2024-01-01" (JNum (Fin 1)); JNull])
    by (left; right; left; reflexivity).
  exact (conj h1 (apply_nullish_record_fails 0 _ no_filters state_A _ h1 h2)).
Defined.

Lemma apply_empty_array_zero_cards_witness :
  api_rows [] "" "" = FetchOk (JArr []) /\
  (let st' := applyFiltersAndRender 0 (api_rows []) no_filters state_A in
   tableBody st' = TRows [] /\ currentData st' = [] /\ chart st' = Some (renderChart []) /\
   ui_cards st' = updateCards (computeCards []) /\
   total (computeCards []) = O /\ num_eqb (avg (computeCards [])) (Fin 0) = true /\
   max (computeCards []) = Fin 0 /\ min (computeCards []) = Fin 0 /\
   systems (computeCards []) = O /\ depts (computeCards []) = O).
Proof.
  assert (h : api_rows [] "" "" = FetchOk (JArr [])) by reflexivity.
  exact (conj h (apply_empty_array_zero_cards 0 (api_rows []) no_filters state_A h)).
Defined.


